(** * Context compaction filter ([/compact] command) -- shallow embedding

    The Python module [src/__init__.py] installs one chat-request filter,
    [compact_command_filter], together with its helpers [handle_compact],
    [apply_compaction], [extract_text], [update_text], [build_text],
    [estimate_tokens] and [generate_summary].  They are closures over the
    per-thread dictionary [compact_boundaries].

    This file embeds them as Rocq functions, in the order of the source, and
    proves the properties the specification states about them.

    Modelling conventions.
    - Python values that travel through a chat request are JSON values:
      [pyval].  Floats do not occur in the embedding.
    - A Python [str] is a [string]; every [ascii] stands for one code point
      below 256, so [String.length] is Python's [len].
    - A Python [dict] with string keys is an association list in insertion
      order (what [json.dumps] and [repr] print); the engine's own dictionary
      [compact_boundaries], whose order is never observed, is a [gmap].
    - A conversation is a list of messages and every message is a
      dictionary; the thread identifier is a string when it is present.
    - The conversation arrives parsed from JSON, hence as a tree: no message
      object occurs twice, and the in-place updates of the source are
      functional updates of the one place that holds the object.
    - [ctx.log], [ctx.chat_request] and [ctx.chat_completion] are the host's:
      every call is recorded in a trace, in order, and the two capabilities
      are fields of a [host] record.  [ctx.log] returns; the text of a log
      line is not kept, only which line it is and the values it prints (the
      reduction percentage, a float, is left out).
    - An exception of class [Exception] is the [Raise] result.  The filter
      raises only before it has changed the conversation or the store, so a
      raised run carries no state.  The cancellation of the awaiting task is
      outside the embedding. *)

From Stdlib Require Import ZArith Lia Ascii String.
From stdpp Require Import base option list strings pretty gmap.

Local Open Scope string_scope.
Local Open Scope Z_scope.
Local Open Scope list_scope.

(** ** Python values *)

Set Warnings "-register-all".

Inductive pyval : Type :=
| PNone
| PBool (b : bool)
| PInt (n : Z)
| PStr (s : string)
| PList (l : list pyval)
| PDict (d : list (string * pyval)).

(** A dictionary with string keys, in insertion order. *)
Abbreviation pydict := (list (string * pyval)).

(** Exceptions: the result of a computation that may raise.  The name of the
    exception class is kept for reading the traces. *)
Inductive pyexn : Type :=
| AttributeError | TypeError | KeyError | IndexError | HostError.

Inductive exc (A : Type) : Type :=
| Ok (a : A)
| Raise (e : pyexn).
Arguments Ok {A} a.
Arguments Raise {A} e.

(** Sequencing: [x ← m; k] runs [k] unless [m] raised. *)
#[global] Instance exc_ret : MRet exc := fun A a => Ok a.
#[global] Instance exc_bind : MBind exc := fun A B k m =>
  match m with
  | Ok a => k a
  | Raise e => Raise e
  end.

(** [try: ... except Exception: handler]. *)
Definition exc_catch {A} (m : exc A) (handler : pyexn -> A) : A :=
  match m with
  | Ok a => a
  | Raise e => handler e
  end.

(** ** Dictionaries *)

Module Dict.

(** [d.get(k)] : the first (only) binding of [k]. *)
Fixpoint get (k : string) (d : pydict) : option pyval :=
  match d with
  | [] => None
  | (k', v) :: d' => if String.eqb k' k then Some v else get k d'
  end.

(** [d.get(k, dflt)]. *)
Definition get_or (k : string) (dflt : pyval) (d : pydict) : pyval :=
  match get k d with
  | Some v => v
  | None => dflt
  end.

(** [d[k] = v]: an existing key keeps its position, a new one goes last. *)
Fixpoint set (k : string) (v : pyval) (d : pydict) : pydict :=
  match d with
  | [] => [(k, v)]
  | (k', v') :: d' =>
      if String.eqb k' k then (k', v) :: d' else (k', v') :: set k v d'
  end.

End Dict.

(** ** Strings *)

Module Str.

Definition code (c : ascii) : N := N_of_ascii c.

(** Whitespace as [str.strip()] sees it, for code points below 256:
    TAB LF VT FF CR, FS GS RS US, SPACE, NEL and NBSP. *)
Definition isspace (c : ascii) : bool :=
  let n := code c in
  ((9 <=? n) && (n <=? 13) || (28 <=? n) && (n <=? 32)
   || (n =? 133) || (n =? 160))%N.

Fixpoint lstrip (s : string) : string :=
  match s with
  | EmptyString => EmptyString
  | String c s' => if isspace c then lstrip s' else s
  end.

Fixpoint rstrip (s : string) : string :=
  match s with
  | EmptyString => EmptyString
  | String c s' =>
      match rstrip s' with
      | EmptyString => if isspace c then EmptyString else String c EmptyString
      | r => String c r
      end
  end.

(** [s.strip()] *)
Definition strip (s : string) : string := rstrip (lstrip s).

(** [s.startswith(p)] *)
Definition startswith (p s : string) : bool := String.prefix p s.

(** [len(s)] *)
Definition len (s : string) : Z := Z.of_nat (String.length s).

(** [sep.join(l)] *)
Fixpoint join (sep : string) (l : list string) : string :=
  match l with
  | [] => ""
  | [x] => x
  | x :: l' => x +:+ sep +:+ join sep l'
  end.

Definition hex_digit (n : N) : ascii :=
  ascii_of_N (if (n <? 10)%N then 48 + n else 87 + n)%N.

(** Two lower-case hexadecimal digits of a code point below 256. *)
Definition hex2 (c : ascii) : string :=
  String (hex_digit (code c / 16)%N) (String (hex_digit (code c mod 16)%N) "").

Fixpoint contains (c : ascii) (s : string) : bool :=
  match s with
  | EmptyString => false
  | String c' s' => Ascii.eqb c c' || contains c s'
  end.

Fixpoint concat_map (f : ascii -> string) (s : string) : string :=
  match s with
  | EmptyString => EmptyString
  | String c s' => f c +:+ concat_map f s'
  end.

End Str.

(** ** Conversions to text: [repr], [str] and [json.dumps] *)

Module Py.

Definition dquote : ascii := "034"%char.
Definition squote : ascii := "039"%char.
Definition backslash : ascii := "092"%char.

(** [repr] of one character inside the quotes [q]. *)
Definition repr_char (q : ascii) (c : ascii) : string :=
  let n := Str.code c in
  if Ascii.eqb c q || Ascii.eqb c backslash then String backslash (String c "")
  else if (n =? 9)%N then "\t"
  else if (n =? 10)%N then "\n"
  else if (n =? 13)%N then "\r"
  else if (n <? 32)%N || (n =? 127)%N then "\x" +:+ Str.hex2 c
  else if (n <? 127)%N then String c ""
  else if (n <=? 160)%N || (n =? 173)%N then "\x" +:+ Str.hex2 c
  else String c "".

(** [repr(s)] for a string: single quotes, unless the text has a single
    quote and no double quote. *)
Definition repr_str (s : string) : string :=
  let q := if Str.contains squote s && negb (Str.contains dquote s)
           then dquote else squote in
  String q (Str.concat_map (repr_char q) s) +:+ String q "".

Fixpoint repr (v : pyval) : string :=
  match v with
  | PNone => "None"
  | PBool true => "True"
  | PBool false => "False"
  | PInt n => pretty n
  | PStr s => repr_str s
  | PList l => "[" +:+ Str.join ", " (map repr l) +:+ "]"
  | PDict d =>
      "{" +:+ Str.join ", "
                (map (fun kv => repr_str (fst kv) +:+ ": " +:+ repr (snd kv)) d)
          +:+ "}"
  end.

(** [str(v)] *)
Definition str (v : pyval) : string :=
  match v with
  | PStr s => s
  | _ => repr v
  end.

(** One character of a JSON string under [ensure_ascii=True]. *)
Definition json_char (c : ascii) : string :=
  let n := Str.code c in
  if (n =? 34)%N || (n =? 92)%N then String backslash (String c "")
  else if (n =? 8)%N then "\b"
  else if (n =? 12)%N then "\f"
  else if (n =? 10)%N then "\n"
  else if (n =? 13)%N then "\r"
  else if (n =? 9)%N then "\t"
  else if (32 <=? n)%N && (n <=? 126)%N then String c ""
  else "\u00" +:+ Str.hex2 c.

Definition json_str (s : string) : string :=
  String dquote (Str.concat_map json_char s) +:+ String dquote "".

(** [json.dumps(v)] with the default separators. *)
Fixpoint json_dumps (v : pyval) : string :=
  match v with
  | PNone => "null"
  | PBool true => "true"
  | PBool false => "false"
  | PInt n => pretty n
  | PStr s => json_str s
  | PList l => "[" +:+ Str.join ", " (map json_dumps l) +:+ "]"
  | PDict d =>
      "{" +:+ Str.join ", "
                (map (fun kv => json_str (fst kv) +:+ ": " +:+ json_dumps (snd kv)) d)
          +:+ "}"
  end.

(** Truth value of [v] in a condition. *)
Definition truthy (v : pyval) : bool :=
  match v with
  | PNone => false
  | PBool b => b
  | PInt n => negb (n =? 0)
  | PStr s => negb (String.eqb s "")
  | PList l => negb (Nat.eqb (length l) 0)
  | PDict d => negb (Nat.eqb (length d) 0)
  end.

Definition is_dict (v : pyval) : bool :=
  match v with PDict _ => true | _ => false end.

Definition is_list (v : pyval) : bool :=
  match v with PList _ => true | _ => false end.

Definition is_str (v : pyval) : bool :=
  match v with PStr _ => true | _ => false end.

(** [len(v)] *)
Definition len (v : pyval) : exc Z :=
  match v with
  | PStr s => Ok (Str.len s)
  | PList l => Ok (Z.of_nat (length l))
  | PDict d => Ok (Z.of_nat (length d))
  | _ => Raise TypeError
  end.

(** Is [p] a substring of [s]; [fuel] bounds the start positions. *)
Fixpoint substring_at (p s : string) (fuel : nat) : bool :=
  String.prefix p s ||
  match fuel, s with
  | S fuel', String _ s' => substring_at p s' fuel'
  | _, _ => false
  end.

(** [key in v] for a string [key]: a key of a dictionary, an element of a
    list, a substring of a string. *)
Definition contains (key : string) (v : pyval) : exc bool :=
  match v with
  | PDict d => Ok (bool_decide (is_Some (Dict.get key d)))
  | PList l => Ok (existsb (fun x => match x with
                                     | PStr s => String.eqb s key
                                     | _ => false
                                     end) l)
  | PStr s => Ok (substring_at key s (String.length s))
  | _ => Raise TypeError
  end.

(** [v[key]] for a string [key]. *)
Definition subscript (key : string) (v : pyval) : exc pyval :=
  match v with
  | PDict d => match Dict.get key d with
               | Some x => Ok x
               | None => Raise KeyError
               end
  | _ => Raise TypeError
  end.

(** [v[0]] *)
Definition first (v : pyval) : exc pyval :=
  match v with
  | PList (x :: _) => Ok x
  | PList [] => Raise IndexError
  | PStr (String c _) => Ok (PStr (String c ""))
  | PStr EmptyString => Raise IndexError
  | PDict _ => Raise KeyError
  | _ => Raise TypeError
  end.

(** [v.strip()] *)
Definition strip (v : pyval) : exc string :=
  match v with
  | PStr s => Ok (Str.strip s)
  | _ => Raise AttributeError
  end.

End Py.


(** ** The data of the engine *)

(** A message is a dictionary, with keys [role] and [content]. *)
Abbreviation message := (list (string * pyval)).

(** The request [chat]: only its [messages] entry is read or written;
    [None] is a request without that key. *)
Record chat : Type := Chat { messages : option (list message) }.

(** The filter's [context]: [threadId], a string when present. *)
Record context : Type := Context { threadId : option string }.

(** [config.json], with the defaults of [__install__]. *)
Record config : Type := Config {
  provider : string;
  model : string;
  summary_prompt : string
}.

Definition default_config : config :=
  {| provider := "ollama";
     model := "qwen2.5:7b";
     summary_prompt := "Summarize this conversation concisely." |}.

(** [f"{provider}/{model}" if provider else model] *)
Definition full_model (cfg : config) : string :=
  if Py.truthy (PStr (provider cfg))
  then provider cfg +:+ "/" +:+ model cfg
  else model cfg.

(** An entry of [compact_boundaries]. *)
Record boundary : Type := Boundary {
  summary : string;
  preTokens : Z;
  messageCount : Z
}.

(** What the engine asks of its host, in the order it happens. *)
Inductive event : Type :=
| LogCompactCommand (thread_id : string)
| LogCompacting (count : Z)
| LogFailed
| LogSummary (chars : Z)
| LogReduction (pre_tokens post_tokens : Z)
| LogApplied (original_count new_count : Z)
| LogCalling (model_name : string)
| LogUnexpected
| LogError (e : pyexn)
| CallChatRequest (model_name system_prompt text : string)
| CallChatCompletion (request : pyval).

(** The two capabilities of [ctx]. *)
Record host : Type := Host {
  chat_request : string -> string -> string -> exc pyval;
  chat_completion : pyval -> exc pyval
}.

(** The state that outlives a request: the closure's dictionary and the
    host's record of what it was asked. *)
Record world : Type := World {
  compact_boundaries : gmap string boundary;
  events : list event
}.

Definition emit (e : event) (w : world) : world :=
  {| compact_boundaries := compact_boundaries w; events := events w ++ [e] |}.

Definition store (thread_id : string) (b : boundary) (w : world) : world :=
  {| compact_boundaries := <[thread_id := b]> (compact_boundaries w);
     events := events w |}.

Definition nl : string := String "010"%char "".

Definition summary_header : string :=
  "[Context: Previous conversation summary]" +:+ nl +:+ nl.

Definition no_history_text : string := "No conversation history to compact.".
Definition failure_text : string := "Failed to generate summary.".
Definition continuation_text : string :=
  "Continue our conversation. What would you like to discuss next?".

(** [{"role": "system", "content": f"[Context: ...]\n\n{summary}"}] *)
Definition system_msg (summary_text : string) : message :=
  [("role", PStr "system"); ("content", PStr (summary_header +:+ summary_text))].

(** ** The helpers, as in the source *)

(** [extract_text(content)], lines 121-127. *)
Definition extract_text (content : pyval) : pyval :=
  match content with
  | PList (first_part :: _) =>
      match first_part with
      | PDict d => Dict.get_or "text" (PStr "") d
      | _ => PStr (Py.str first_part)
      end
  | _ => PStr (Py.str content)
  end.

(** [update_text(message, text)], lines 129-135.  In the first branch the
    source assigns into the dictionary [content[0]], which the message
    holds under [content]. *)
Definition update_text (msg : message) (text : string) : message :=
  let content := Dict.get_or "content" (PStr "") msg in
  match content with
  | PList (PDict d :: rest) =>
      Dict.set "content" (PList (PDict (Dict.set "text" (PStr text) d) :: rest)) msg
  | _ => Dict.set "content" (PStr text) msg
  end.

(** [' '.join(parts)]: raises on an item that is not a string. *)
Fixpoint as_strings (parts : list pyval) : exc (list string) :=
  match parts with
  | [] => Ok []
  | PStr s :: parts' => l ← as_strings parts'; Ok (s :: l)
  | _ :: _ => Raise TypeError
  end.

(** The body of the loop of [build_text] for one message, lines 141-155. *)
Definition build_line (msg : message) : exc string :=
  let role := Dict.get_or "role" (PStr "unknown") msg in
  let content := Dict.get_or "content" (PStr "") msg in
  content_text ←
    match content with
    | PList l =>
        let parts := map (fun p => match p with
                                   | PDict d => Dict.get_or "text" (PStr "") d
                                   | _ => PStr (Py.str p)
                                   end) l in
        strs ← as_strings parts; Ok (Str.join " " strs)
    | _ => Ok (Py.str content)
    end;
  Ok (Py.str role +:+ ": " +:+ content_text +:+ nl +:+ nl).

(** [build_text(messages)], lines 137-157, with the accumulator [text]. *)
Fixpoint build_text_from (text : string) (msgs : list message) : exc string :=
  match msgs with
  | [] => Ok text
  | msg :: msgs' => line ← build_line msg; build_text_from (text +:+ line) msgs'
  end.

Definition build_text (msgs : list message) : exc string :=
  build_text_from "" msgs.

(** The text whose length [estimate_tokens] counts for one message. *)
Definition counted_text (msg : message) : string :=
  let content := Dict.get_or "content" (PStr "") msg in
  let content := if Py.is_dict content || Py.is_list content
                 then PStr (Py.json_dumps content) else content in
  Py.str content.

(** [estimate_tokens(messages)], lines 159-167; [//] is floor division. *)
Definition estimate_tokens (msgs : list message) : Z :=
  let total := fold_left (fun total msg => total + Str.len (counted_text msg)) msgs 0 in
  total / 4.

(** ** The summarization call *)

(** The condition of line 188:
    [response and 'choices' in response and len(response['choices']) > 0]. *)
Definition has_choices (response : pyval) : exc bool :=
  if negb (Py.truthy response) then Ok false
  else
    present ← Py.contains "choices" response;
    if negb present then Ok false
    else
      choices ← Py.subscript "choices" response;
      n ← Py.len choices;
      Ok (0 <? n).

(** Lines 188-193: [Some] of the stripped summary, [None] for the
    "unexpected response format" branch; any of the steps may raise. *)
Definition read_response (response : pyval) : exc (option string) :=
  ok ← has_choices response;
  if (ok : bool) then
    choices ← Py.subscript "choices" response;
    choice ← Py.first choices;
    msg ← Py.subscript "message" choice;
    content ← Py.subscript "content" msg;
    stripped ← Py.strip content;
    Ok (Some stripped)
  else Ok (@None string).

(** [generate_summary(conversation_text, full_model, prompt, ctx)],
    lines 169-197.  The [try] covers all of the body; the handler logs and
    returns [None]. *)
Definition generate_summary (h : host) (conversation_text model_name prompt : string)
    (w : world) : option string * world :=
  let w := emit (CallChatRequest model_name prompt conversation_text) w in
  match chat_request h model_name prompt conversation_text with
  | Raise e => (None, emit (LogError e) w)
  | Ok summary_chat =>
      let w := emit (LogCalling model_name) w in
      let w := emit (CallChatCompletion summary_chat) w in
      match chat_completion h summary_chat with
      | Raise e => (None, emit (LogError e) w)
      | Ok response =>
          match read_response response with
          | Raise e => (None, emit (LogError e) w)
          | Ok None => (None, emit LogUnexpected w)
          | Ok (Some text) => (Some text, w)
          end
      end
  end.

(** ** The engine *)

(** [chat['messages']] *)
Definition chat_messages (c : chat) : exc (list message) :=
  match messages c with
  | Some msgs => Ok msgs
  | None => Raise KeyError
  end.

(** [msgs[-1]] *)
Definition last_of (msgs : list message) : exc message :=
  match last msgs with
  | Some m => Ok m
  | None => Raise IndexError
  end.

(** [msgs[:-1]] *)
Definition but_last (msgs : list message) : list message := removelast msgs.

(** [msgs[-1:]] *)
Definition last_slice (msgs : list message) : list message :=
  drop (length msgs - 1) msgs.

(** [not summary], for [summary] a string or [None]. *)
Definition no_summary (s : option string) : bool :=
  match s with
  | None => true
  | Some text => negb (Py.truthy (PStr text))
  end.

(** [handle_compact], lines 54-100.  [update_text(last_message, ...)] writes
    into the last message of the list the chat holds. *)
Definition handle_compact (h : host) (c : chat) (thread_id model_name prompt : string)
    (w : world) : exc (chat * world) :=
  let w := emit (LogCompactCommand thread_id) w in
  msgs ← chat_messages c;
  last_message ← last_of msgs;
  let messages_to_compact := but_last msgs in
  if (Z.of_nat (length messages_to_compact) =? 0) then
    Ok (Chat (Some (messages_to_compact ++ [update_text last_message no_history_text])), w)
  else
    let w := emit (LogCompacting (Z.of_nat (length messages_to_compact))) w in
    let pre_tokens := estimate_tokens messages_to_compact in
    conversation_text ← build_text messages_to_compact;
    let '(summary_opt, w) := generate_summary h conversation_text model_name prompt w in
    if no_summary summary_opt then
      let w := emit LogFailed w in
      Ok (Chat (Some (messages_to_compact ++ [update_text last_message failure_text])), w)
    else
      let summary_text := default "" summary_opt in
      let w := emit (LogSummary (Str.len summary_text)) w in
      let w := store thread_id
                 {| summary := summary_text;
                    preTokens := pre_tokens;
                    messageCount := Z.of_nat (length messages_to_compact) |} w in
      let new_messages :=
        [system_msg summary_text] ++ [update_text last_message continuation_text] in
      let post_tokens := estimate_tokens new_messages in
      let w := emit (LogReduction pre_tokens post_tokens) w in
      Ok (Chat (Some new_messages), w).

(** [apply_compaction], lines 102-119. *)
Definition apply_compaction (c : chat) (thread_id : string) (w : world)
    : exc (chat * world) :=
  match compact_boundaries w !! thread_id with
  | None => Raise KeyError
  | Some b =>
      msgs ← chat_messages c;
      let original_count := Z.of_nat (length msgs) in
      let recent := last_slice msgs in
      let new_messages := [system_msg (summary b)] ++ recent in
      let w := emit (LogApplied original_count (Z.of_nat (length new_messages))) w in
      Ok (Chat (Some new_messages), w)
  end.

(** [context.get('threadId', 'default')] *)
Definition thread_of (ctx : context) : string := default "default" (threadId ctx).

(** [last_message.get('role') != 'user'] *)
Definition role_is_user (msg : message) : bool :=
  match Dict.get "role" msg with
  | Some (PStr r) => String.eqb r "user"
  | _ => false
  end.

(** The condition of line 49:
    [text_content and text_content.strip().startswith('/compact')]. *)
Definition is_compact_command (text_content : pyval) : exc bool :=
  if Py.truthy text_content then
    stripped ← Py.strip text_content;
    Ok (Str.startswith "/compact" stripped)
  else Ok false.

(** [compact_command_filter(chat, context)], lines 32-52. *)
Definition compact_command_filter (h : host) (cfg : config) (c : chat) (ctx : context)
    (w : world) : exc (chat * world) :=
  let thread_id := thread_of ctx in
  match messages c with
  | None => Ok (c, w)
  | Some msgs =>
      if (Z.of_nat (length msgs) =? 0) then Ok (c, w)
      else
        last_message ← last_of msgs;
        if negb (role_is_user last_message) then Ok (c, w)
        else
          let content := Dict.get_or "content" (PStr "") last_message in
          let text_content := extract_text content in
          command ← is_compact_command text_content;
          if (command : bool) then
            handle_compact h c thread_id (full_model cfg) (summary_prompt cfg) w
          else if bool_decide (is_Some (compact_boundaries w !! thread_id)) then
            apply_compaction c thread_id w
          else Ok (c, w)
  end.

(** ** What the specification calls things *)

(** [msg.get('content', '')] *)
Definition content_of (msg : message) : pyval := Dict.get_or "content" (PStr "") msg.

(** The text of a message, as the engine reads it. *)
Definition text_of (msg : message) : pyval := extract_text (content_of msg).

(** A user turn whose trimmed text begins with [/compact]. *)
Definition is_compact_turn (msg : message) : bool :=
  role_is_user msg &&
  match text_of msg with
  | PStr t => Str.startswith "/compact" (Str.strip t)
  | _ => false
  end.

(** [response.choices[0].message.content], when the response has that shape. *)
Definition response_content (response : pyval) : option pyval :=
  match response with
  | PDict d =>
      match Dict.get "choices" d with
      | Some (PList (PDict choice :: _)) =>
          match Dict.get "message" choice with
          | Some (PDict msg) => Dict.get "content" msg
          | _ => None
          end
      | _ => None
      end
  | _ => None
  end.

(** The summary a host yields for a transcript: the result of
    [generate_summary], which does not depend on the state it starts in. *)
Definition summary_of (h : host) (conversation_text model_name prompt : string)
    : option string :=
  (generate_summary h conversation_text model_name prompt (World ∅ [])).1.

(** The ways a summarization call fails: the request cannot be built or the
    completion raises, the response lacks [choices[0].message.content], what
    it holds there is not a text (null, a number, a sequence: [.strip()]
    raises inside the [try]), or the text is empty after trimming.  These
    are all of them: see [summarization_fails_iff_no_summary]. *)
Inductive summarization_fails (h : host) (conversation_text model_name prompt : string)
    : Prop :=
| request_raises e :
    chat_request h model_name prompt conversation_text = Raise e ->
    summarization_fails h conversation_text model_name prompt
| completion_raises req e :
    chat_request h model_name prompt conversation_text = Ok req ->
    chat_completion h req = Raise e ->
    summarization_fails h conversation_text model_name prompt
| content_missing req response :
    chat_request h model_name prompt conversation_text = Ok req ->
    chat_completion h req = Ok response ->
    response_content response = None ->
    summarization_fails h conversation_text model_name prompt
| content_not_text req response v :
    chat_request h model_name prompt conversation_text = Ok req ->
    chat_completion h req = Ok response ->
    response_content response = Some v ->
    Py.is_str v = false ->
    summarization_fails h conversation_text model_name prompt
| content_blank req response s :
    chat_request h model_name prompt conversation_text = Ok req ->
    chat_completion h req = Ok response ->
    response_content response = Some (PStr s) ->
    Str.strip s = "" ->
    summarization_fails h conversation_text model_name prompt.

(** The calls to the completion capability among some events. *)
Definition is_call (e : event) : bool :=
  match e with
  | CallChatRequest _ _ _ | CallChatCompletion _ => true
  | _ => false
  end.

Definition is_applied (e : event) : bool :=
  match e with
  | LogApplied _ _ => true
  | _ => false
  end.

(** The serialized content the estimator counts, in the specification's
    words: plain text as it is, structured content as JSON, anything else
    in its string form. *)
Definition serialized (content : pyval) : string :=
  match content with
  | PStr s => s
  | PList _ | PDict _ => Py.json_dumps content
  | _ => Py.str content
  end.

(** The estimate in the specification's words: the sum of the lengths,
    divided by 4, truncating. *)
Definition estimate_spec (msgs : list message) : Z :=
  Z.quot (foldr Z.add 0 (map (fun m => Str.len (serialized (content_of m))) msgs)) 4.

(** The state in which the summarization call of [handle_compact] starts. *)
Definition called (thread_id : string) (count : nat) (w : world) : world :=
  emit (LogCompacting (Z.of_nat count)) (emit (LogCompactCommand thread_id) w).

(** The text field a part carries, if it is a mapping that has one. *)
Definition text_field (part : pyval) : option pyval :=
  match part with
  | PDict d => Dict.get "text" d
  | _ => None
  end.

(** [extractText] in the specification's words. *)
Definition extractText_spec (content : pyval) : pyval :=
  match content with
  | PList [] => PStr ""
  | PList (part :: _) =>
      match text_field part with
      | Some t => t
      | None => PStr (Py.str part)
      end
  | PStr s => PStr s
  | _ => PStr (Py.str content)
  end.

(** The two shapes on which the source and those words part: the empty
    sequence, and a first part that is a mapping without a text field. *)
Definition textless_mapping_first (content : pyval) : bool :=
  match content with
  | PList (PDict d :: _) => negb (bool_decide (is_Some (Dict.get "text" d)))
  | _ => false
  end.

Definition is_empty_sequence (content : pyval) : bool :=
  match content with
  | PList [] => true
  | _ => false
  end.

(** C6 as the specification states it. *)
Definition extract_text_as_specified : Prop :=
  forall content, extract_text content = extractText_spec content.

(** [rewriteText] in the specification's words. *)
Definition rewriteText_spec (msg : message) (newText : string) : message :=
  match content_of msg with
  | PList (PDict d :: rest) =>
      match Dict.get "text" d with
      | Some _ =>
          Dict.set "content" (PList (PDict (Dict.set "text" (PStr newText) d) :: rest)) msg
      | None => Dict.set "content" (PStr newText) msg
      end
  | _ => Dict.set "content" (PStr newText) msg
  end.

(** C8 as the specification states it. *)
Definition update_text_as_specified : Prop :=
  forall msg newText, update_text msg newText = rewriteText_spec msg newText.

(** A user turn that starts with an image part. *)
Definition image_first_msg : message :=
  [("role", PStr "user");
   ("content", PList [PDict [("type", PStr "image_url")];
                      PDict [("type", PStr "text"); ("text", PStr "/compact")]])].

(** C4 as the specification states it: after a failed summarization the
    conversation is a single message, the one carrying the failure text. *)
Definition failure_leaves_single_message : Prop :=
  forall h cfg ctx prior last_message w text,
    is_compact_turn last_message = true ->
    prior <> [] ->
    build_text prior = Ok text ->
    summarization_fails h text (full_model cfg) (summary_prompt cfg) ->
    exists m w',
      compact_command_filter h cfg (Chat (Some (prior ++ [last_message]))) ctx w
      = Ok (Chat (Some [m]), w')
      /\ text_of m = PStr "Failed to generate summary.".

(** ** Concrete conversations and hosts *)

Definition user_msg (text : string) : message :=
  [("role", PStr "user"); ("content", PStr text)].

Definition assistant_msg (text : string) : message :=
  [("role", PStr "assistant"); ("content", PStr text)].

(** A completion response with one choice. *)
Definition completion_response (content : pyval) : pyval :=
  PDict [("choices",
          PList [PDict [("message",
                         PDict [("role", PStr "assistant"); ("content", content)])]])].

(** A host whose completion always answers [content]. *)
Definition answering_host (content : pyval) : host :=
  {| chat_request := fun model_name prompt text =>
       Ok (PDict [("model", PStr model_name);
                  ("messages", PList [PDict [("role", PStr "system"); ("content", PStr prompt)];
                                      PDict (user_msg text)])]);
     chat_completion := fun _ => Ok (completion_response content) |}.

(** A host whose completion raises. *)
Definition raising_host : host :=
  {| chat_request := fun model_name prompt text => Ok (PDict [("model", PStr model_name)]);
     chat_completion := fun _ => Raise HostError |}.

Definition greeting : list message := [user_msg "hi"; assistant_msg "hello"].

Definition t1 : context := Context (Some "t1").

Definition fresh_world : world := World ∅ [].

(** A state in which thread [t1] already has a boundary. *)
Definition compacted_world : world :=
  World {["t1" := {| summary := "Earlier talk."; preTokens := 9; messageCount := 4 |}]} [].

(** ** The runs of the filter, as a relation *)

(** The state after a fresh compaction of [prior] with summary [s]. *)
Definition compacted (h : host) (thread_id model_name prompt text s : string)
    (prior : list message) (last_message : message) (w : world) : world :=
  emit (LogReduction (estimate_tokens prior)
          (estimate_tokens [system_msg s; update_text last_message continuation_text]))
    (store thread_id
       {| summary := s;
          preTokens := estimate_tokens prior;
          messageCount := Z.of_nat (length prior) |}
       (emit (LogSummary (Str.len s))
          (generate_summary h text model_name prompt
             (called thread_id (length prior) w)).2)).

(** The five ways in which the filter returns on a conversation that ends
    with [last_message]: the conversation and the state it leaves. *)
Inductive filter_run (h : host) (cfg : config) (ctx : context)
    (prior : list message) (last_message : message) (w : world)
    : chat -> world -> Prop :=
| run_untouched :
    role_is_user last_message = false
    \/ (is_compact_command (text_of last_message) = Ok false
        /\ compact_boundaries w !! thread_of ctx = None) ->
    filter_run h cfg ctx prior last_message w (Chat (Some (prior ++ [last_message]))) w
| run_no_history :
    is_compact_turn last_message = true ->
    prior = [] ->
    filter_run h cfg ctx prior last_message w
      (Chat (Some [update_text last_message no_history_text]))
      (emit (LogCompactCommand (thread_of ctx)) w)
| run_failed text :
    is_compact_turn last_message = true ->
    prior <> [] ->
    build_text prior = Ok text ->
    no_summary (summary_of h text (full_model cfg) (summary_prompt cfg)) = true ->
    filter_run h cfg ctx prior last_message w
      (Chat (Some (prior ++ [update_text last_message failure_text])))
      (emit LogFailed
         (generate_summary h text (full_model cfg) (summary_prompt cfg)
            (called (thread_of ctx) (length prior) w)).2)
| run_fresh text s :
    is_compact_turn last_message = true ->
    prior <> [] ->
    build_text prior = Ok text ->
    summary_of h text (full_model cfg) (summary_prompt cfg) = Some s ->
    s <> "" ->
    filter_run h cfg ctx prior last_message w
      (Chat (Some [system_msg s; update_text last_message continuation_text]))
      (compacted h (thread_of ctx) (full_model cfg) (summary_prompt cfg) text s
         prior last_message w)
| run_reapplied b :
    role_is_user last_message = true ->
    is_compact_command (text_of last_message) = Ok false ->
    compact_boundaries w !! thread_of ctx = Some b ->
    filter_run h cfg ctx prior last_message w
      (Chat (Some [system_msg (summary b); last_message]))
      (emit (LogApplied (Z.of_nat (length (prior ++ [last_message]))) 2) w).

(** What every stored boundary satisfies. *)
Definition boundary_ok (b : boundary) : Prop :=
  summary b <> "" /\ 0 <= preTokens b /\ 1 <= messageCount b.

Definition store_ok (w : world) : Prop :=
  forall thread_id b, compact_boundaries w !! thread_id = Some b -> boundary_ok b.

Definition is_completion (e : event) : bool :=
  match e with
  | CallChatCompletion _ => true
  | _ => false
  end.

Definition is_request (e : event) : bool :=
  match e with
  | CallChatRequest _ _ _ => true
  | _ => false
  end.

(** The part as [build_text] reads it: the text field of a mapping, the
    string form of anything else. *)
Definition part_text (p : pyval) : pyval :=
  match p with
  | PDict d => Dict.get_or "text" (PStr "") d
  | _ => PStr (Py.str p)
  end.

(** A message [build_text] can render: in a sequence content, every text
    field that is read is a text. *)
Definition renderable (msg : message) : bool :=
  match content_of msg with
  | PList l => forallb (fun p => Py.is_str (part_text p)) l
  | _ => true
  end.

(** ** [__install__]: the configuration *)

(** The three values [__install__] reads, lines 14-24; [file] is the parsed
    [config.json], [None] when the file does not exist.  [config.get] needs
    a dictionary. *)
Record settings : Type := Settings {
  provider_value : pyval;
  model_value : pyval;
  summary_prompt_value : pyval
}.

Definition read_settings (file : option pyval) : exc settings :=
  match default (PDict []) file with
  | PDict config_dict =>
      Ok {| provider_value := Dict.get_or "provider" (PStr "ollama") config_dict;
            model_value := Dict.get_or "model" (PStr "qwen2.5:7b") config_dict;
            summary_prompt_value :=
              Dict.get_or "summary_prompt"
                (PStr "Summarize this conversation concisely.") config_dict |}
  | _ => Raise AttributeError
  end.

(** Line 27: [f"{provider}/{model}" if provider else model]. *)
Definition full_model_value (st : settings) : pyval :=
  if Py.truthy (provider_value st)
  then PStr (Py.str (provider_value st) +:+ "/" +:+ Py.str (model_value st))
  else model_value st.

(** Settings whose three values are texts, as a [config]. *)
Definition settings_of (cfg : config) : settings :=
  {| provider_value := PStr (provider cfg);
     model_value := PStr (model cfg);
     summary_prompt_value := PStr (summary_prompt cfg) |}.

(** The configuration a parsed [config.json] stands for, read with the
    defaults of [__install__]. *)
Definition text_setting (key dflt : string) (config_dict : pydict) : string :=
  match Dict.get key config_dict with
  | Some (PStr s) => s
  | _ => dflt
  end.

Definition config_of (config_dict : pydict) : config :=
  {| provider := text_setting "provider" "ollama" config_dict;
     model := text_setting "model" "qwen2.5:7b" config_dict;
     summary_prompt :=
       text_setting "summary_prompt" "Summarize this conversation concisely."
         config_dict |}.

(** A value a setting may have for the typed reading to be exact: absent,
    or a text. *)
Definition text_or_absent (key : string) (config_dict : pydict) : bool :=
  match Dict.get key config_dict with
  | Some v => Py.is_str v
  | None => true
  end.

(** A text made of whitespace only. *)
Fixpoint all_space (s : string) : bool :=
  match s with
  | EmptyString => true
  | String c s' => Str.isspace c && all_space s'
  end.

(** The command turn used in the examples, the host that answers it and
    the request it makes. *)
Definition compact_request : chat := Chat (Some (greeting ++ [user_msg "/compact"])).

Definition greeter : host := answering_host (PStr " Greetings. ").

Definition t2 : context := Context (Some "t2").

(** ** The conversions on examples *)

Example repr_demo :
  Py.repr (PList [PDict [("type", PStr "image"); ("n", PInt (-12))]; PNone; PBool true])
  = "[{'type': 'image', 'n': -12}, None, True]".
Proof. vm_compute. reflexivity. Qed.

Example json_demo :
  String.length
    (Py.json_dumps (PList [PDict [("type", PStr "a\b"); ("n", PInt 7)]; PNone]))
  = 32%nat.
Proof. vm_compute. reflexivity. Qed.

(** ** Dictionaries: reading after writing *)

Module DictFacts.

Lemma get_set_eq k v d : Dict.get k (Dict.set k v d) = Some v.
Proof.
  induction d as [|[k' v'] d IH]; simpl.
  - by rewrite String.eqb_refl.
  - destruct (String.eqb k' k) eqn:E; simpl; rewrite E; [done | exact IH].
Qed.

Lemma get_set_ne k k' v d : k <> k' -> Dict.get k' (Dict.set k v d) = Dict.get k' d.
Proof.
  intros Hne. induction d as [|[k0 v0] d IH]; simpl.
  - destruct (String.eqb k k') eqn:E; [|done].
    apply String.eqb_eq in E. contradiction.
  - destruct (String.eqb k0 k) eqn:E; simpl.
    + apply String.eqb_eq in E. subst k0.
      destruct (String.eqb k k') eqn:E'; [|done].
      apply String.eqb_eq in E'. contradiction.
    + by rewrite IH.
Qed.

Lemma get_or_set_eq k v dflt d : Dict.get_or k dflt (Dict.set k v d) = v.
Proof. unfold Dict.get_or. by rewrite get_set_eq. Qed.

End DictFacts.

(** ** The content helpers *)

Lemma update_text_text msg text : text_of (update_text msg text) = PStr text.
Proof.
  unfold text_of, content_of, update_text.
  destruct (Dict.get_or "content" (PStr "") msg) as [| | | |[|[] rest]|];
    rewrite DictFacts.get_or_set_eq; simpl; try reflexivity.
  apply DictFacts.get_or_set_eq.
Qed.

Lemma update_text_role msg text :
  Dict.get "role" (update_text msg text) = Dict.get "role" msg.
Proof.
  unfold update_text.
  destruct (Dict.get_or "content" (PStr "") msg) as [| | | |[|[] rest]|];
    by apply DictFacts.get_set_ne.
Qed.

Lemma update_text_user msg text :
  role_is_user (update_text msg text) = role_is_user msg.
Proof. unfold role_is_user. by rewrite update_text_role. Qed.

(** ** The summarization call *)

(** Unfolds one sequencing step of a computation that may raise. *)
Ltac exc_step := unfold mbind, exc_bind, mret, exc_ret in *; simpl in *.

Lemma read_response_content response s :
  response_content response = Some (PStr s) ->
  read_response response = Ok (Some (Str.strip s)).
Proof.
  intros H. destruct response as [| | | | |d]; try discriminate.
  simpl in H.
  destruct (Dict.get "choices" d) as [[| | | |[|[| | | | |choice] rest]|]|] eqn:Hch;
    try discriminate.
  destruct (Dict.get "message" choice) as [[| | | | |msg]|] eqn:Hmsg; try discriminate.
  assert (Hd : negb (Nat.eqb (length d) 0) = true) by (by destruct d).
  unfold read_response, has_choices. simpl Py.truthy. rewrite Hd.
  exc_step. rewrite Hch. exc_step. rewrite Hmsg. exc_step. rewrite H. reflexivity.
Qed.

Lemma read_response_Some response t :
  read_response response = Ok (Some t) ->
  exists s, response_content response = Some (PStr s) /\ t = Str.strip s.
Proof.
  unfold read_response, has_choices. intros H.
  destruct response as [| | | | |d];
    try (exc_step; repeat case_match; discriminate).
  destruct (Py.truthy (PDict d)); [|exc_step; discriminate].
  unfold Py.subscript, Py.contains in H. exc_step.
  destruct (Dict.get "choices" d) as [choices|] eqn:Hch; [|exc_step; discriminate].
  exc_step.
  destruct choices as [| | | s0|[|choice rest]|]; exc_step; try discriminate.
  - destruct (0 <? Str.len s0); [|discriminate]. destruct s0; discriminate.
  - destruct choice as [| | | | |choice]; try discriminate.
    destruct (Dict.get "message" choice) as [[| | | | |msg]|] eqn:Hmsg; try discriminate.
    destruct (Dict.get "content" msg) as [[| | | s| |]|] eqn:Hc; try discriminate.
    exists s. split; [reflexivity|]. by injection H as <-.
  - destruct (0 <? Z.of_nat (length d0)); discriminate.
Qed.

Lemma read_response_None_content response :
  response_content response = None ->
  forall t, read_response response <> Ok (Some t).
Proof.
  intros Hnone t Hsome.
  destruct (read_response_Some _ _ Hsome) as (s & Hs & _). congruence.
Qed.

Section GenerateSummary.

Variables (h : host) (conversation_text model_name prompt : string).

Lemma generate_summary_fst w :
  (generate_summary h conversation_text model_name prompt w).1
  = summary_of h conversation_text model_name prompt.
Proof.
  unfold summary_of, generate_summary.
  destruct (chat_request h _ _ _) as [req|]; [|done].
  destruct (chat_completion h req) as [response|]; [|done].
  by destruct (read_response response) as [[]|].
Qed.

Lemma generate_summary_boundaries w :
  compact_boundaries (generate_summary h conversation_text model_name prompt w).2
  = compact_boundaries w.
Proof.
  unfold generate_summary.
  destruct (chat_request h _ _ _) as [req|]; [|done].
  destruct (chat_completion h req) as [response|]; [|done].
  by destruct (read_response response) as [[]|].
Qed.

Lemma generate_summary_events w :
  exists evs,
    events (generate_summary h conversation_text model_name prompt w).2
    = events w ++ evs
    /\ forallb (fun e => negb (is_applied e)) evs = true.
Proof.
  unfold generate_summary.
  destruct (chat_request h _ _ _) as [req|]; simpl.
  - destruct (chat_completion h req) as [response|]; simpl.
    + destruct (read_response response) as [[]|]; simpl;
        repeat rewrite <- app_assoc; eexists; (split; [reflexivity|]); reflexivity.
    + repeat rewrite <- app_assoc; eexists; (split; [reflexivity|]); reflexivity.
  - repeat rewrite <- app_assoc; eexists; (split; [reflexivity|]); reflexivity.
Qed.

Lemma summary_of_content req response s :
  chat_request h model_name prompt conversation_text = Ok req ->
  chat_completion h req = Ok response ->
  response_content response = Some (PStr s) ->
  summary_of h conversation_text model_name prompt = Some (Str.strip s).
Proof.
  intros Hreq Hresp Hc. unfold summary_of, generate_summary.
  rewrite Hreq, Hresp, (read_response_content _ _ Hc). reflexivity.
Qed.

Lemma summarization_fails_no_summary :
  summarization_fails h conversation_text model_name prompt ->
  no_summary (summary_of h conversation_text model_name prompt) = true.
Proof.
  intros Hfail. unfold summary_of, generate_summary.
  destruct Hfail as [e Hreq|req e Hreq Hc|req response Hreq Hc Hnone
                     |req response v Hreq Hc Hv Hnotstr
                     |req response s Hreq Hc Hs Hblank].
  - by rewrite Hreq.
  - by rewrite Hreq, Hc.
  - rewrite Hreq, Hc.
    destruct (read_response response) as [[t|]|] eqn:Hr; [|done..].
    by destruct (read_response_None_content _ Hnone t).
  - rewrite Hreq, Hc.
    destruct (read_response response) as [[t|]|] eqn:Hr; [|done..].
    destruct (read_response_Some _ _ Hr) as (s & Hs & _).
    rewrite Hv in Hs. injection Hs as ->. discriminate.
  - rewrite Hreq, Hc, (read_response_content _ _ Hs), Hblank. reflexivity.
Qed.

(** The five ways of failing are all of them: a call fails in one of them
    exactly when [handle_compact] finds no summary ([not summary], line 74). *)
Lemma summarization_fails_iff_no_summary :
  summarization_fails h conversation_text model_name prompt
  <-> no_summary (summary_of h conversation_text model_name prompt) = true.
Proof.
  split; [apply summarization_fails_no_summary|].
  unfold summary_of, generate_summary.
  destruct (chat_request h model_name prompt conversation_text) as [req|e] eqn:Hreq.
  2:{ intros _. by eapply request_raises. }
  destruct (chat_completion h req) as [response|e] eqn:Hc.
  2:{ intros _. by eapply completion_raises. }
  destruct (response_content response) as [v|] eqn:Hv.
  2:{ intros _. by eapply content_missing. }
  destruct (Py.is_str v) eqn:Hstr.
  2:{ intros _. by eapply content_not_text. }
  destruct v as [| | |s| |]; try discriminate.
  rewrite (read_response_content _ _ Hv). simpl. intros Hblank.
  eapply content_blank; [exact Hreq|exact Hc|exact Hv|].
  apply negb_true_iff, negb_false_iff in Hblank. by apply String.eqb_eq.
Qed.

End GenerateSummary.

(** ** Slices of a conversation that ends with [last_message] *)

Section Slices.

Variables (prior : list message) (last_message : message).

Lemma last_of_snoc : last_of (prior ++ [last_message]) = Ok last_message.
Proof. unfold last_of. by rewrite last_snoc. Qed.

Lemma but_last_snoc : but_last (prior ++ [last_message]) = prior.
Proof. apply removelast_last. Qed.

Lemma last_slice_snoc : last_slice (prior ++ [last_message]) = [last_message].
Proof.
  unfold last_slice. rewrite length_app. simpl.
  replace (length prior + 1 - 1)%nat with (length prior) by lia.
  by rewrite drop_app_length.
Qed.

Lemma length_snoc_nonzero : (Z.of_nat (length (prior ++ [last_message])) =? 0) = false.
Proof. rewrite length_app. simpl. apply Z.eqb_neq. lia. Qed.

End Slices.

Lemma length_nonzero (msgs : list message) :
  msgs <> [] -> (Z.of_nat (length msgs) =? 0) = false.
Proof. intros H. destruct msgs; [done|]. apply Z.eqb_neq. simpl. lia. Qed.

(** ** The paths of the engine *)

Lemma compact_turn_command msg :
  is_compact_turn msg = true ->
  role_is_user msg = true /\ is_compact_command (text_of msg) = Ok true.
Proof.
  unfold is_compact_turn, is_compact_command. intros H.
  apply andb_true_iff in H as [Hrole Htext]. split; [exact Hrole|].
  destruct (text_of msg) as [| | |t| |]; try discriminate.
  destruct t as [|c t]; [discriminate|]. simpl Py.truthy. exc_step.
  by rewrite Htext.
Qed.

Section Paths.

Variables (h : host) (cfg : config) (ctx : context).
Variables (prior : list message) (last_message : message).

Local Abbreviation c := (Chat (Some (prior ++ [last_message]))).
Local Abbreviation thread_id := (thread_of ctx).

(** A [/compact] turn goes to [handle_compact], whatever the store holds. *)
Lemma filter_command w :
  is_compact_turn last_message = true ->
  compact_command_filter h cfg c ctx w
  = handle_compact h c thread_id (full_model cfg) (summary_prompt cfg) w.
Proof.
  intros Hturn. apply compact_turn_command in Hturn as [Hrole Hcmd].
  unfold compact_command_filter. cbn [messages].
  rewrite length_snoc_nonzero, last_of_snoc. exc_step.
  rewrite Hrole. simpl.
  unfold text_of, content_of in Hcmd. by rewrite Hcmd.
Qed.

(** Another user turn of a thread with a boundary goes to [apply_compaction]. *)
Lemma filter_reapply w b :
  role_is_user last_message = true ->
  is_compact_command (text_of last_message) = Ok false ->
  compact_boundaries w !! thread_id = Some b ->
  compact_command_filter h cfg c ctx w
  = Ok (Chat (Some [system_msg (summary b); last_message]),
        emit (LogApplied (Z.of_nat (length (prior ++ [last_message]))) 2) w).
Proof.
  intros Hrole Hcmd Hb.
  unfold compact_command_filter. cbn [messages].
  rewrite length_snoc_nonzero, last_of_snoc. exc_step.
  rewrite Hrole. simpl.
  unfold text_of, content_of in Hcmd. rewrite Hcmd.
  rewrite Hb.
  rewrite bool_decide_eq_true_2 by (by eexists).
  unfold apply_compaction. rewrite Hb. simpl.
  by rewrite last_slice_snoc.
Qed.

Variables (model_name prompt : string).

Lemma handle_failure w text :
  prior <> [] ->
  build_text prior = Ok text ->
  no_summary (summary_of h text model_name prompt) = true ->
  handle_compact h c thread_id model_name prompt w
  = Ok (Chat (Some (prior ++ [update_text last_message failure_text])),
        emit LogFailed (generate_summary h text model_name prompt
               (called thread_id (length prior) w)).2).
Proof.
  intros Hprior Htext Hnone.
  unfold handle_compact. simpl chat_messages. exc_step.
  rewrite last_of_snoc, but_last_snoc, (length_nonzero _ Hprior), Htext.
  pose proof (generate_summary_fst h text model_name prompt
              (called thread_id (length prior) w)) as Hfst.
  unfold called in *.
  destruct (generate_summary h text model_name prompt _) as [so w1].
  simpl in Hfst. subst so. by rewrite Hnone.
Qed.

Lemma handle_success w text s :
  prior <> [] ->
  build_text prior = Ok text ->
  summary_of h text model_name prompt = Some s ->
  s <> "" ->
  handle_compact h c thread_id model_name prompt w
  = Ok (Chat (Some [system_msg s; update_text last_message continuation_text]),
        emit (LogReduction (estimate_tokens prior)
                (estimate_tokens
                   [system_msg s; update_text last_message continuation_text]))
          (store thread_id
             {| summary := s;
                preTokens := estimate_tokens prior;
                messageCount := Z.of_nat (length prior) |}
             (emit (LogSummary (Str.len s))
                (generate_summary h text model_name prompt
               (called thread_id (length prior) w)).2))).
Proof.
  intros Hprior Htext Hsome Hs.
  unfold handle_compact. simpl chat_messages. exc_step.
  rewrite last_of_snoc, but_last_snoc, (length_nonzero _ Hprior), Htext.
  pose proof (generate_summary_fst h text model_name prompt
              (called thread_id (length prior) w)) as Hfst.
  unfold called in *.
  destruct (generate_summary h text model_name prompt _) as [so w1].
  simpl in Hfst. subst so. rewrite Hsome. simpl.
  destruct s as [|a s]; [done|]. reflexivity.
Qed.

End Paths.

Lemma handle_no_history h last_message thread_id model_name prompt w :
  handle_compact h (Chat (Some [last_message])) thread_id model_name prompt w
  = Ok (Chat (Some [update_text last_message no_history_text]),
        emit (LogCompactCommand thread_id) w).
Proof. reflexivity. Qed.

(** [handle_compact] announces the command first and never logs a
    reapplication. *)
Lemma handle_compact_events h c thread_id model_name prompt w c' w' :
  handle_compact h c thread_id model_name prompt w = Ok (c', w') ->
  exists evs,
    events w' = events w ++ LogCompactCommand thread_id :: evs
    /\ forallb (fun e => negb (is_applied e)) evs = true.
Proof.
  unfold handle_compact. intros H.
  destruct (chat_messages c) as [msgs|]; [|discriminate]. exc_step.
  destruct (last_of msgs) as [last_message|]; [|discriminate].
  destruct (Z.of_nat (length (but_last msgs)) =? 0).
  { injection H as <- <-. by exists []. }
  destruct (build_text (but_last msgs)) as [text|]; [|discriminate].
  match type of H with context [generate_summary h text model_name prompt ?w0] =>
    destruct (generate_summary_events h text model_name prompt w0) as (evs & Hev & Hno);
    destruct (generate_summary h text model_name prompt w0) as [so w1]
  end.
  simpl in Hev.
  destruct (no_summary so); injection H as <- <-; simpl; rewrite Hev;
    repeat rewrite <- app_assoc; simpl; eexists; (split; [reflexivity|]);
    simpl; rewrite forallb_app, Hno; reflexivity.
Qed.

(** ** The command path (C10) *)

(** C10.  A user turn whose trimmed text begins with [/compact] -- any text
    with that prefix, [/compacted] and [/compacting] included -- is handled
    by [handle_compact], whatever boundary the thread already has: the run
    logs the command first and never logs a reapplication. *)
Theorem compact_prefix_takes_command_path h cfg ctx prior last_message w :
  is_compact_turn last_message = true ->
  compact_command_filter h cfg (Chat (Some (prior ++ [last_message]))) ctx w
  = handle_compact h (Chat (Some (prior ++ [last_message]))) (thread_of ctx)
      (full_model cfg) (summary_prompt cfg) w
  /\ forall c' w',
       compact_command_filter h cfg (Chat (Some (prior ++ [last_message]))) ctx w
       = Ok (c', w') ->
       exists evs,
         events w' = events w ++ LogCompactCommand (thread_of ctx) :: evs
         /\ forallb (fun e => negb (is_applied e)) evs = true.
Proof.
  intros Hturn. split.
  - by apply filter_command.
  - intros c' w'. rewrite filter_command by exact Hturn.
    apply handle_compact_events.
Qed.

Lemma compact_prefix_takes_command_path_witness :
  is_compact_turn (user_msg " /compacted ") = true
  /\ is_Some (compact_boundaries compacted_world !! "t1")
  /\ compact_command_filter (answering_host (PStr "Greetings.")) default_config
       (Chat (Some (greeting ++ [user_msg " /compacted "]))) t1 compacted_world
     = handle_compact (answering_host (PStr "Greetings."))
         (Chat (Some (greeting ++ [user_msg " /compacted "]))) "t1"
         "ollama/qwen2.5:7b" "Summarize this conversation concisely." compacted_world.
Proof.
  split; [reflexivity|]. split; [by eexists|].
  apply (compact_prefix_takes_command_path (answering_host (PStr "Greetings."))
           default_config t1 greeting (user_msg " /compacted ") compacted_world).
  reflexivity.
Defined.

(** ** A command without history (C5) *)

(** C5.  When the conversation consists of the [/compact] turn alone, the
    text of that message becomes "No conversation history to compact.", the
    store is as before, and the run asks nothing of the completion
    capability. *)
Theorem compact_without_history h cfg ctx last_message w :
  is_compact_turn last_message = true ->
  exists m w' evs,
    compact_command_filter h cfg (Chat (Some [last_message])) ctx w
    = Ok (Chat (Some [m]), w')
    /\ text_of m = PStr "No conversation history to compact."
    /\ compact_boundaries w' = compact_boundaries w
    /\ events w' = events w ++ evs
    /\ forallb (fun e => negb (is_call e)) evs = true.
Proof.
  intros Hturn.
  exists (update_text last_message no_history_text),
         (emit (LogCompactCommand (thread_of ctx)) w),
         [LogCompactCommand (thread_of ctx)].
  split; [|split; [|split; [|split]]]; try reflexivity.
  - pose proof (filter_command h cfg ctx [] last_message w Hturn) as Hpath.
    cbn [app] in Hpath. rewrite Hpath. apply handle_no_history.
  - apply update_text_text.
Qed.

Lemma compact_without_history_witness :
  is_compact_turn (user_msg "/compact") = true
  /\ exists m w' evs,
       compact_command_filter raising_host default_config
         (Chat (Some [user_msg "/compact"])) t1 compacted_world
       = Ok (Chat (Some [m]), w')
       /\ text_of m = PStr "No conversation history to compact."
       /\ compact_boundaries w' = compact_boundaries compacted_world
       /\ events w' = events compacted_world ++ evs
       /\ forallb (fun e => negb (is_call e)) evs = true.
Proof.
  split; [reflexivity|].
  apply (compact_without_history raising_host default_config t1
           (user_msg "/compact") compacted_world).
  reflexivity.
Defined.

(** ** A failed summarization (C3, C4) *)

Section Failure.

Variables (h : host) (cfg : config) (ctx : context).
Variables (prior : list message) (last_message : message) (w : world).
Variable text : string.

Hypothesis command : is_compact_turn last_message = true.
Hypothesis history : prior <> [].
Hypothesis transcript : build_text prior = Ok text.
Hypothesis failure :
  summarization_fails h text (full_model cfg) (summary_prompt cfg).

(** What the engine leaves behind when the summary could not be had. *)
Lemma failed_compaction :
  exists w',
    compact_command_filter h cfg (Chat (Some (prior ++ [last_message]))) ctx w
    = Ok (Chat (Some (prior ++ [update_text last_message failure_text])), w')
    /\ compact_boundaries w' = compact_boundaries w.
Proof.
  rewrite filter_command by exact command.
  erewrite handle_failure;
    [|exact history|exact transcript|by apply summarization_fails_no_summary].
  eexists. split; [reflexivity|].
  simpl. by rewrite generate_summary_boundaries.
Qed.

End Failure.

(** C3.  On a [/compact] turn with prior history, when the summarization
    call fails -- it raises, the response lacks [choices[0].message.content]
    or holds something there that is not a text, or the text is blank after
    trimming; there is no other way to fail -- the text of the last message
    becomes "Failed to generate summary." and the store is exactly as it was
    before the call. *)
Theorem failed_summary_reports_and_keeps_store
    h cfg ctx prior last_message w text :
  is_compact_turn last_message = true ->
  prior <> [] ->
  build_text prior = Ok text ->
  summarization_fails h text (full_model cfg) (summary_prompt cfg) ->
  exists msgs' m w',
    compact_command_filter h cfg (Chat (Some (prior ++ [last_message]))) ctx w
    = Ok (Chat (Some msgs'), w')
    /\ last msgs' = Some m
    /\ text_of m = PStr "Failed to generate summary."
    /\ compact_boundaries w' = compact_boundaries w.
Proof.
  intros Hturn Hprior Htext Hfail.
  destruct (failed_compaction h cfg ctx prior last_message w text
              Hturn Hprior Htext Hfail) as (w' & Hrun & Hstore).
  exists (prior ++ [update_text last_message failure_text]),
         (update_text last_message failure_text), w'.
  split; [exact Hrun|]. split; [apply last_snoc|].
  split; [apply update_text_text | exact Hstore].
Qed.

Lemma failed_summary_reports_and_keeps_store_witness :
  (exists msgs' m w',
      compact_command_filter (answering_host (PStr "   ")) default_config
        (Chat (Some (greeting ++ [user_msg "/compact"]))) t1 compacted_world
      = Ok (Chat (Some msgs'), w')
      /\ last msgs' = Some m
      /\ text_of m = PStr "Failed to generate summary."
      /\ compact_boundaries w' = compact_boundaries compacted_world)
  /\ (exists msgs' m w',
         compact_command_filter (answering_host PNone) default_config
           (Chat (Some (greeting ++ [user_msg "/compact"]))) t1 compacted_world
         = Ok (Chat (Some msgs'), w')
         /\ last msgs' = Some m
         /\ text_of m = PStr "Failed to generate summary."
         /\ compact_boundaries w' = compact_boundaries compacted_world).
Proof.
  split.
  - apply (failed_summary_reports_and_keeps_store (answering_host (PStr "   "))
             default_config t1 greeting (user_msg "/compact") compacted_world
             ("user: hi" +:+ nl +:+ nl +:+ "assistant: hello" +:+ nl +:+ nl)).
    + reflexivity.
    + discriminate.
    + reflexivity.
    + eapply content_blank; reflexivity.
  - apply (failed_summary_reports_and_keeps_store (answering_host PNone)
             default_config t1 greeting (user_msg "/compact") compacted_world
             ("user: hi" +:+ nl +:+ nl +:+ "assistant: hello" +:+ nl +:+ nl)).
    + reflexivity.
    + discriminate.
    + reflexivity.
    + eapply content_not_text; reflexivity.
Defined.

(** The run of [hi / hello / /compact] against a host whose completion
    raises: all three messages are still there. *)
Example failed_compact_run :
  compact_command_filter raising_host default_config
    (Chat (Some (greeting ++ [user_msg "/compact"]))) t1 fresh_world
  = Ok (Chat (Some [user_msg "hi"; assistant_msg "hello";
                    user_msg "Failed to generate summary."]),
        World ∅ [LogCompactCommand "t1"; LogCompacting 2;
                 CallChatRequest "ollama/qwen2.5:7b"
                   "Summarize this conversation concisely."
                   ("user: hi" +:+ nl +:+ nl +:+ "assistant: hello" +:+ nl +:+ nl);
                 LogCalling "ollama/qwen2.5:7b";
                 CallChatCompletion (PDict [("model", PStr "ollama/qwen2.5:7b")]);
                 LogError HostError; LogFailed]).
Proof. vm_compute. reflexivity. Qed.

(** C4, refuted as stated: the failed run above keeps three messages. *)
Lemma failure_leaves_single_message_refuted : ~ failure_leaves_single_message.
Proof.
  intros Hclaim.
  destruct (Hclaim raising_host default_config t1 greeting (user_msg "/compact")
              fresh_world
              ("user: hi" +:+ nl +:+ nl +:+ "assistant: hello" +:+ nl +:+ nl))
    as (m & w' & Hrun & _).
  - reflexivity.
  - discriminate.
  - reflexivity.
  - eapply completion_raises; reflexivity.
  - rewrite failed_compact_run in Hrun. discriminate.
Qed.

(** C4, amended.  After a failed summarization -- whichever way the call
    failed, see [summarization_fails_iff_no_summary] -- the conversation
    keeps every message: the prior history is unchanged and in place, and
    the last message is the command message with its text replaced by
    "Failed to generate summary.". *)
Theorem failed_compact_keeps_history h cfg ctx prior last_message w text :
  is_compact_turn last_message = true ->
  prior <> [] ->
  build_text prior = Ok text ->
  summarization_fails h text (full_model cfg) (summary_prompt cfg) ->
  exists w',
    compact_command_filter h cfg (Chat (Some (prior ++ [last_message]))) ctx w
    = Ok (Chat (Some (prior ++ [update_text last_message failure_text])), w')
    /\ text_of (update_text last_message failure_text)
       = PStr "Failed to generate summary."
    /\ length (prior ++ [update_text last_message failure_text])
       = length (prior ++ [last_message]).
Proof.
  intros Hturn Hprior Htext Hfail.
  destruct (failed_compaction h cfg ctx prior last_message w text
              Hturn Hprior Htext Hfail) as (w' & Hrun & _).
  exists w'. split; [exact Hrun|]. split; [apply update_text_text|].
  by rewrite !length_app.
Qed.

Lemma failed_compact_keeps_history_witness :
  (exists w',
      compact_command_filter raising_host default_config
        (Chat (Some (greeting ++ [user_msg "/compact"]))) t1 fresh_world
      = Ok (Chat (Some (greeting ++ [update_text (user_msg "/compact") failure_text])), w')
      /\ text_of (update_text (user_msg "/compact") failure_text)
         = PStr "Failed to generate summary."
      /\ length (greeting ++ [update_text (user_msg "/compact") failure_text])
         = length (greeting ++ [user_msg "/compact"]))
  /\ (exists w',
         compact_command_filter (answering_host (PList [PStr "a summary"]))
           default_config
           (Chat (Some (greeting ++ [user_msg "/compact"]))) t1 fresh_world
         = Ok (Chat (Some (greeting ++ [update_text (user_msg "/compact") failure_text])),
               w')
         /\ text_of (update_text (user_msg "/compact") failure_text)
            = PStr "Failed to generate summary."
         /\ length (greeting ++ [update_text (user_msg "/compact") failure_text])
            = length (greeting ++ [user_msg "/compact"])).
Proof.
  split.
  - apply (failed_compact_keeps_history raising_host default_config t1 greeting
             (user_msg "/compact") fresh_world
             ("user: hi" +:+ nl +:+ nl +:+ "assistant: hello" +:+ nl +:+ nl)).
    + reflexivity.
    + discriminate.
    + reflexivity.
    + eapply completion_raises; reflexivity.
  - apply (failed_compact_keeps_history (answering_host (PList [PStr "a summary"]))
             default_config t1 greeting (user_msg "/compact") fresh_world
             ("user: hi" +:+ nl +:+ nl +:+ "assistant: hello" +:+ nl +:+ nl)).
    + reflexivity.
    + discriminate.
    + reflexivity.
    + eapply content_not_text; reflexivity.
Defined.

(** ** The shape after a compaction (C1, C2) *)

(** C1.  Whenever the engine rewrites the conversation -- a [/compact] turn
    with history whose summarization succeeds, or another user turn on a
    thread that has a boundary -- the result has exactly two messages: the
    system message whose content is the header followed by the summary of
    the thread's boundary, then the last user turn, with its text replaced
    by the continuation prompt in the first case and untouched in the
    second. *)
Theorem compaction_leaves_summary_and_last_turn h cfg ctx prior last_message w :
  role_is_user last_message = true ->
  (forall text s,
      is_compact_turn last_message = true ->
      prior <> [] ->
      build_text prior = Ok text ->
      summary_of h text (full_model cfg) (summary_prompt cfg) = Some s ->
      s <> "" ->
      exists m w',
        compact_command_filter h cfg (Chat (Some (prior ++ [last_message]))) ctx w
        = Ok (Chat (Some [[("role", PStr "system");
                           ("content",
                            PStr ("[Context: Previous conversation summary]"
                                  +:+ nl +:+ nl +:+ s))];
                          m]), w')
        /\ summary <$> (compact_boundaries w' !! thread_of ctx) = Some s
        /\ m = update_text last_message continuation_text
        /\ role_is_user m = true
        /\ text_of m
           = PStr "Continue our conversation. What would you like to discuss next?")
  /\
  (forall b,
      is_compact_command (text_of last_message) = Ok false ->
      compact_boundaries w !! thread_of ctx = Some b ->
      exists w',
        compact_command_filter h cfg (Chat (Some (prior ++ [last_message]))) ctx w
        = Ok (Chat (Some [[("role", PStr "system");
                           ("content",
                            PStr ("[Context: Previous conversation summary]"
                                  +:+ nl +:+ nl +:+ summary b))];
                          last_message]), w')
        /\ compact_boundaries w' = compact_boundaries w).
Proof.
  intros Hrole. split.
  - intros text s Hturn Hprior Htext Hsum Hs.
    rewrite filter_command by exact Hturn.
    erewrite handle_success; [|exact Hprior|exact Htext|exact Hsum|exact Hs].
    eexists _, _. split; [reflexivity|].
    split; [simpl; by rewrite lookup_insert_eq|].
    split; [reflexivity|].
    split; [by rewrite update_text_user | apply update_text_text].
  - intros b Hcmd Hb.
    erewrite filter_reapply; [|exact Hrole|exact Hcmd|exact Hb].
    eexists. split; reflexivity.
Qed.

Lemma compaction_leaves_summary_and_last_turn_witness :
  (exists m w',
      compact_command_filter (answering_host (PStr " Greetings. ")) default_config
        (Chat (Some (greeting ++ [user_msg "/compact"]))) t1 compacted_world
      = Ok (Chat (Some [[("role", PStr "system");
                         ("content",
                          PStr ("[Context: Previous conversation summary]"
                                +:+ nl +:+ nl +:+ "Greetings."))];
                        m]), w')
      /\ summary <$> (compact_boundaries w' !! "t1") = Some "Greetings."
      /\ m = update_text (user_msg "/compact") continuation_text
      /\ role_is_user m = true
      /\ text_of m
         = PStr "Continue our conversation. What would you like to discuss next?")
  /\
  (exists w',
      compact_command_filter (answering_host (PStr " Greetings. ")) default_config
        (Chat (Some (greeting ++ [user_msg "what's next?"]))) t1 compacted_world
      = Ok (Chat (Some [[("role", PStr "system");
                         ("content",
                          PStr ("[Context: Previous conversation summary]"
                                +:+ nl +:+ nl +:+ "Earlier talk."))];
                        user_msg "what's next?"]), w')
      /\ compact_boundaries w' = compact_boundaries compacted_world).
Proof.
  split.
  - apply (proj1 (compaction_leaves_summary_and_last_turn
                    (answering_host (PStr " Greetings. ")) default_config t1
                    greeting (user_msg "/compact") compacted_world eq_refl)
             ("user: hi" +:+ nl +:+ nl +:+ "assistant: hello" +:+ nl +:+ nl)
             "Greetings.");
      [reflexivity | discriminate | reflexivity | reflexivity | discriminate].
  - apply (proj2 (compaction_leaves_summary_and_last_turn
                    (answering_host (PStr " Greetings. ")) default_config t1
                    greeting (user_msg "what's next?") compacted_world eq_refl)
             {| summary := "Earlier talk."; preTokens := 9; messageCount := 4 |});
      reflexivity.
Defined.

(** C2.  Thread [t1], conversation [hi / hello / /compact], and a completion
    whose [choices[0].message.content] is "User greeted the assistant.": the
    conversation becomes the summary message and the continuation prompt, and
    the store holds for [t1] that summary, the estimate of the first two
    messages (which is 1) and the count 2. *)
Theorem greeting_scenario h cfg w req response :
  chat_request h (full_model cfg) (summary_prompt cfg)
    ("user: hi" +:+ nl +:+ nl +:+ "assistant: hello" +:+ nl +:+ nl) = Ok req ->
  chat_completion h req = Ok response ->
  response_content response = Some (PStr "User greeted the assistant.") ->
  exists w',
    compact_command_filter h cfg
      (Chat (Some [user_msg "hi"; assistant_msg "hello"; user_msg "/compact"]))
      (Context (Some "t1")) w
    = Ok (Chat (Some
            [[("role", PStr "system");
              ("content",
               PStr ("[Context: Previous conversation summary]" +:+ nl +:+ nl
                     +:+ "User greeted the assistant."))];
             user_msg "Continue our conversation. What would you like to discuss next?"]),
          w')
    /\ compact_boundaries w' !! "t1"
       = Some {| summary := "User greeted the assistant.";
                 preTokens := estimate_tokens [user_msg "hi"; assistant_msg "hello"];
                 messageCount := 2 |}
    /\ estimate_tokens [user_msg "hi"; assistant_msg "hello"] = 1.
Proof.
  intros Hreq Hresp Hcontent.
  pose proof (summary_of_content h _ _ _ req response _ Hreq Hresp Hcontent) as Hsum.
  change (Str.strip "User greeted the assistant.")
    with "User greeted the assistant." in Hsum.
  change [user_msg "hi"; assistant_msg "hello"; user_msg "/compact"]
    with (greeting ++ [user_msg "/compact"]).
  rewrite filter_command by reflexivity.
  erewrite handle_success; [|discriminate|reflexivity|exact Hsum|discriminate].
  eexists. split; [reflexivity|].
  split; [simpl; by rewrite lookup_insert_eq | reflexivity].
Qed.

Lemma greeting_scenario_witness :
  exists w',
    compact_command_filter (answering_host (PStr "User greeted the assistant."))
      default_config
      (Chat (Some [user_msg "hi"; assistant_msg "hello"; user_msg "/compact"]))
      (Context (Some "t1")) fresh_world
    = Ok (Chat (Some
            [[("role", PStr "system");
              ("content",
               PStr ("[Context: Previous conversation summary]" +:+ nl +:+ nl
                     +:+ "User greeted the assistant."))];
             user_msg "Continue our conversation. What would you like to discuss next?"]),
          w')
    /\ compact_boundaries w' !! "t1"
       = Some {| summary := "User greeted the assistant.";
                 preTokens := estimate_tokens [user_msg "hi"; assistant_msg "hello"];
                 messageCount := 2 |}
    /\ estimate_tokens [user_msg "hi"; assistant_msg "hello"] = 1.
Proof.
  eapply (greeting_scenario (answering_host (PStr "User greeted the assistant."))
            default_config fresh_world); reflexivity.
Defined.

(** ** The content normalizer (C6, C7, C8) *)

(** C6, refuted as stated: the empty sequence yields its string form, not
    the empty text; a first part that is a mapping without text yields the
    empty text, not the part's string form. *)
Lemma extract_text_as_specified_refuted :
  extract_text (PList []) = PStr "[]"
  /\ extractText_spec (PList []) = PStr ""
  /\ extract_text (PList [PDict [("type", PStr "image")]]) = PStr ""
  /\ extractText_spec (PList [PDict [("type", PStr "image")]])
     = PStr "{'type': 'image'}"
  /\ ~ extract_text_as_specified.
Proof.
  repeat (split; [vm_compute; reflexivity|]).
  intros Hclaim. specialize (Hclaim (PList [])). discriminate.
Qed.

(** C6, amended.  [extract_text] returns the text field of the first part
    when that part carries one, the string form of a first part that is not
    a mapping, a text unchanged, and the string form of any other value --
    all as specified -- but for an empty sequence it returns the string form
    "[]", and for a first part that is a mapping without a text field it
    returns the empty text. *)
Theorem extract_text_cases :
  (forall content,
      is_empty_sequence content = false ->
      textless_mapping_first content = false ->
      extract_text content = extractText_spec content)
  /\ extract_text (PList []) = PStr "[]"
  /\ (forall d rest,
         Dict.get "text" d = None ->
         extract_text (PList (PDict d :: rest)) = PStr "").
Proof.
  split; [|split].
  - intros content Hempty Hmapping.
    destruct content as [| | | |[|part rest]|]; try reflexivity; [discriminate|].
    destruct part as [| | | | |d]; try reflexivity.
    simpl in *. unfold Dict.get_or.
    destruct (Dict.get "text" d); [reflexivity | discriminate].
  - reflexivity.
  - intros d rest Hnone. simpl. unfold Dict.get_or. by rewrite Hnone.
Qed.

Lemma extract_text_cases_witness :
  extract_text (PList [PDict [("type", PStr "text"); ("text", PStr "/compact")];
                       PDict [("type", PStr "image")]])
  = PStr "/compact"
  /\ extract_text (PList [PInt 7; PStr "x"]) = PStr "7"
  /\ extract_text (PStr "plain") = PStr "plain"
  /\ extract_text (PInt 42) = PStr "42"
  /\ extract_text (PList [PDict [("type", PStr "image")]; PStr "x"]) = PStr "".
Proof.
  pose proof extract_text_cases as (Hspec & _ & Htextless).
  split; [|split; [|split; [|split]]].
  - apply (Hspec (PList [PDict [("type", PStr "text"); ("text", PStr "/compact")];
                         PDict [("type", PStr "image")]])); reflexivity.
  - apply (Hspec (PList [PInt 7; PStr "x"])); reflexivity.
  - apply (Hspec (PStr "plain")); reflexivity.
  - apply (Hspec (PInt 42)); reflexivity.
  - apply (Htextless [("type", PStr "image")] [PStr "x"]). reflexivity.
Defined.

(** [extract_text] is total, and its result is a text whenever the text
    field of a first mapping part, if there is one, is a text. *)
Lemma extract_text_is_str content :
  (forall d rest t,
      content = PList (PDict d :: rest) -> Dict.get "text" d = Some t ->
      Py.is_str t = true) ->
  Py.is_str (extract_text content) = true.
Proof.
  intros Hfield.
  destruct content as [| | | |[|part rest]|]; try reflexivity.
  destruct part as [| | | | |d]; try reflexivity.
  simpl. unfold Dict.get_or.
  destruct (Dict.get "text" d) as [t|] eqn:Ht; [|reflexivity].
  by apply (Hfield d rest t).
Qed.

(** C7, where the source misses it.  For a first part whose text field is
    not a text the result is that value as it is -- here the integer 5,
    not a string -- while both sibling branches coerce with [str]; the
    filter then calls [.strip()] on it and the turn ends in an
    [AttributeError]. *)
Theorem extract_text_nonstring_text_field :
  extract_text (PList [PDict [("type", PStr "text"); ("text", PInt 5)]]) = PInt 5
  /\ Py.is_str
       (extract_text (PList [PDict [("type", PStr "text"); ("text", PInt 5)]]))
     = false
  /\ compact_command_filter raising_host default_config
       (Chat (Some [[("role", PStr "user");
                     ("content",
                      PList [PDict [("type", PStr "text"); ("text", PInt 5)]])]]))
       t1 fresh_world
     = Raise AttributeError.
Proof. repeat split. Qed.

(** C8, refuted as stated: when the first part is a mapping without a text
    field the content is not replaced by the new text; the part gains a text
    field and the sequence stays. *)
Lemma update_text_as_specified_refuted :
  update_text image_first_msg "new"
  = [("role", PStr "user");
     ("content", PList [PDict [("type", PStr "image_url"); ("text", PStr "new")];
                        PDict [("type", PStr "text"); ("text", PStr "/compact")]])]
  /\ rewriteText_spec image_first_msg "new"
     = [("role", PStr "user"); ("content", PStr "new")]
  /\ ~ update_text_as_specified.
Proof.
  repeat (split; [vm_compute; reflexivity|]).
  intros Hclaim. specialize (Hclaim image_first_msg "new"). discriminate.
Qed.

Lemma dict_set_absent k v d : Dict.get k d = None -> Dict.set k v d = d ++ [(k, v)].
Proof.
  induction d as [|[k' v'] d IH]; simpl; [done|].
  destruct (String.eqb k' k); [discriminate|].
  intros H. by rewrite IH.
Qed.

(** C8, amended.  When the content is a non-empty sequence whose first part
    is a mapping, [update_text] writes only that part's text field: a field
    that is there is replaced, a field that is missing is added to the part,
    and the other fields of the part and all other parts stay.  In every
    other case the content is replaced by the new text.  No other key of the
    message changes. *)
Theorem update_text_cases :
  (forall msg newText,
      textless_mapping_first (content_of msg) = false ->
      update_text msg newText = rewriteText_spec msg newText)
  /\ (forall msg newText d rest,
         content_of msg = PList (PDict d :: rest) ->
         Dict.get "text" d = None ->
         update_text msg newText
         = Dict.set "content" (PList (PDict (d ++ [("text", PStr newText)]) :: rest)) msg)
  /\ (forall msg newText d rest,
         content_of msg = PList (PDict d :: rest) ->
         exists d',
           Dict.get "content" (update_text msg newText) = Some (PList (PDict d' :: rest))
           /\ Dict.get "text" d' = Some (PStr newText)
           /\ forall k, k <> "text" -> Dict.get k d' = Dict.get k d)
  /\ (forall msg newText k,
         k <> "content" -> Dict.get k (update_text msg newText) = Dict.get k msg).
Proof.
  split; [|split; [|split]].
  - intros msg newText Hshape. unfold update_text, rewriteText_spec, content_of in *.
    destruct (Dict.get_or "content" (PStr "") msg) as [| | | |[|[| | | | |d] rest]|];
      try reflexivity.
    simpl in Hshape. destruct (Dict.get "text" d); [reflexivity | discriminate].
  - intros msg newText d rest Hcontent Hnone. unfold update_text, content_of in *.
    rewrite Hcontent. by rewrite (dict_set_absent _ _ _ Hnone).
  - intros msg newText d rest Hcontent. unfold update_text, content_of in *.
    rewrite Hcontent. exists (Dict.set "text" (PStr newText) d).
    split; [apply DictFacts.get_set_eq|].
    split; [apply DictFacts.get_set_eq|].
    intros k Hk. apply DictFacts.get_set_ne. congruence.
  - intros msg newText k Hk. unfold update_text.
    destruct (Dict.get_or "content" (PStr "") msg) as [| | | |[|[] rest]|];
      apply DictFacts.get_set_ne; congruence.
Qed.

Lemma update_text_cases_witness :
  update_text
    [("role", PStr "user");
     ("content", PList [PDict [("type", PStr "text"); ("text", PStr "/compact")];
                        PDict [("type", PStr "image_url")]])] "new"
  = [("role", PStr "user");
     ("content", PList [PDict [("type", PStr "text"); ("text", PStr "new")];
                        PDict [("type", PStr "image_url")]])]
  /\ update_text (user_msg "/compact") "new" = user_msg "new"
  /\ update_text image_first_msg "new"
     = [("role", PStr "user");
        ("content", PList [PDict [("type", PStr "image_url"); ("text", PStr "new")];
                           PDict [("type", PStr "text"); ("text", PStr "/compact")]])]
  /\ Dict.get "role" (update_text image_first_msg "new") = Some (PStr "user").
Proof.
  pose proof update_text_cases as (Hspec & Hadd & _ & Hframe).
  split; [|split; [|split]].
  - apply (Hspec [("role", PStr "user");
                  ("content",
                   PList [PDict [("type", PStr "text"); ("text", PStr "/compact")];
                          PDict [("type", PStr "image_url")]])] "new").
    reflexivity.
  - apply (Hspec (user_msg "/compact") "new"). reflexivity.
  - apply (Hadd image_first_msg "new" [("type", PStr "image_url")]
             [PDict [("type", PStr "text"); ("text", PStr "/compact")]]);
      reflexivity.
  - apply (Hframe image_first_msg "new" "role"). discriminate.
Defined.

(** ** The token estimator (C9) *)

Lemma counted_text_serialized msg : counted_text msg = serialized (content_of msg).
Proof.
  unfold counted_text, content_of.
  by destruct (Dict.get_or "content" (PStr "") msg).
Qed.

Lemma len_nonneg s : 0 <= Str.len s.
Proof. unfold Str.len. lia. Qed.

(** The loop of [estimate_tokens], started from any [total]. *)
Lemma total_from (f : message -> Z) msgs total :
  fold_left (fun total msg => total + f msg) msgs total
  = total + foldr Z.add 0 (map f msgs).
Proof.
  revert total. induction msgs as [|msg msgs IH]; intros total; simpl.
  - lia.
  - rewrite IH. lia.
Qed.

Lemma lengths_nonneg msgs :
  0 <= foldr Z.add 0 (map (fun m => Str.len (serialized (content_of m))) msgs).
Proof.
  induction msgs as [|msg msgs IH]; simpl; [lia|].
  pose proof (len_nonneg (serialized (content_of msg))). lia.
Qed.

Lemma estimate_tokens_total msgs :
  estimate_tokens msgs
  = foldr Z.add 0 (map (fun m => Str.len (serialized (content_of m))) msgs) / 4.
Proof.
  unfold estimate_tokens. rewrite total_from, Z.add_0_l. do 2 f_equal.
  apply List.map_ext. intros msg. by rewrite counted_text_serialized.
Qed.

(** C9.  The estimate is the sum, over the messages, of the length of the
    serialized content -- structured content as JSON, a text as it is --
    divided by 4 and truncated.  Hence it is never negative, and appending
    messages never lowers it.  (Being a function of the messages alone, it
    is deterministic.) *)
Theorem estimate_tokens_quarter_of_lengths msgs :
  estimate_tokens msgs = estimate_spec msgs
  /\ 0 <= estimate_tokens msgs
  /\ forall more, estimate_tokens msgs <= estimate_tokens (msgs ++ more).
Proof.
  split; [|split].
  - rewrite estimate_tokens_total. unfold estimate_spec.
    symmetry. apply Z.quot_div_nonneg; [apply lengths_nonneg | lia].
  - rewrite estimate_tokens_total.
    apply Z.div_pos; [apply lengths_nonneg | lia].
  - intros more. rewrite !estimate_tokens_total.
    apply Z.div_le_mono; [lia|].
    rewrite map_app, foldr_app.
    pose proof (lengths_nonneg more) as Hmore.
    generalize dependent (foldr Z.add 0
      (map (fun m => Str.len (serialized (content_of m))) more)).
    intros extra Hextra.
    induction msgs as [|msg msgs IH]; simpl; lia.
Qed.

Example estimate_structured :
  estimate_tokens
    [user_msg "hello there";
     [("role", PStr "user");
      ("content", PList [PDict [("type", PStr "text"); ("text", PStr "hi")]])]]
  = 10.
Proof. vm_compute. reflexivity. Qed.

(** ** Every run of the filter *)

Lemma command_compact_turn msg :
  role_is_user msg = true ->
  is_compact_command (text_of msg) = Ok true ->
  is_compact_turn msg = true.
Proof.
  unfold is_compact_turn, is_compact_command. intros -> H. simpl.
  destruct (text_of msg) as [| |n|t| |]; simpl in H;
    try (repeat case_match; discriminate).
  destruct (negb (String.eqb t "")); [|discriminate].
  exc_step. by injection H.
Qed.

Lemma no_summary_false so :
  no_summary so = false -> exists s, so = Some s /\ s <> "".
Proof.
  destruct so as [s|]; [|discriminate]. simpl. intros H.
  exists s. split; [reflexivity|]. intros ->. discriminate.
Qed.

Lemma filter_run_sound h cfg ctx prior last_message w c' w' :
  filter_run h cfg ctx prior last_message w c' w' ->
  compact_command_filter h cfg (Chat (Some (prior ++ [last_message]))) ctx w
  = Ok (c', w').
Proof.
  intros Hrun.
  destruct Hrun as [Hpass|Hturn ->|text Hturn Hprior Htext Hnone
                    |text s Hturn Hprior Htext Hsum Hs|b Hrole Hcmd Hb].
  - unfold compact_command_filter. cbn [messages].
    rewrite length_snoc_nonzero, last_of_snoc. exc_step.
    destruct Hpass as [Hrole|[Hcmd Hb]].
    + by rewrite Hrole.
    + destruct (role_is_user last_message); [|reflexivity]. simpl.
      unfold text_of, content_of in Hcmd. rewrite Hcmd, Hb. reflexivity.
  - pose proof (filter_command h cfg ctx [] last_message w Hturn) as Hpath.
    cbn [app] in *. rewrite Hpath. apply handle_no_history.
  - rewrite filter_command by exact Hturn.
    by apply handle_failure.
  - rewrite filter_command by exact Hturn.
    by apply handle_success.
  - by apply filter_reapply.
Qed.

Lemma filter_run_complete h cfg ctx prior last_message w c' w' :
  compact_command_filter h cfg (Chat (Some (prior ++ [last_message]))) ctx w
  = Ok (c', w') ->
  filter_run h cfg ctx prior last_message w c' w'.
Proof.
  intros H.
  destruct (role_is_user last_message) eqn:Hrole.
  2:{ rewrite (filter_run_sound h cfg ctx prior last_message w _ w) in H
        by (apply run_untouched; by left).
      injection H as <- <-. apply run_untouched. by left. }
  destruct (is_compact_command (text_of last_message)) as [[|]|e] eqn:Hcmd.
  - pose proof (command_compact_turn _ Hrole Hcmd) as Hturn.
    destruct prior as [|m prior'] eqn:Hp.
    { rewrite (filter_run_sound h cfg ctx [] last_message w _ _
                 (run_no_history _ _ _ _ _ _ Hturn eq_refl)) in H.
      injection H as <- <-. by apply run_no_history. }
    rewrite <- Hp in *. assert (Hprior : prior <> []) by (by rewrite Hp).
    clear Hp.
    destruct (build_text prior) as [text|e] eqn:Htext.
    2:{ rewrite filter_command in H by exact Hturn.
        unfold handle_compact in H. simpl chat_messages in H. exc_step.
        rewrite last_of_snoc, but_last_snoc, (length_nonzero _ Hprior), Htext in H.
        discriminate. }
    destruct (no_summary (summary_of h text (full_model cfg) (summary_prompt cfg)))
      eqn:Hnone.
    + rewrite (filter_run_sound h cfg ctx prior last_message w _ _
                 (run_failed _ _ _ _ _ _ text Hturn Hprior Htext Hnone)) in H.
      injection H as <- <-. by apply run_failed.
    + destruct (no_summary_false _ Hnone) as (s & Hsum & Hs).
      rewrite (filter_run_sound h cfg ctx prior last_message w _ _
                 (run_fresh _ _ _ _ _ _ text s Hturn Hprior Htext Hsum Hs)) in H.
      injection H as <- <-. by apply run_fresh.
  - destruct (compact_boundaries w !! thread_of ctx) as [b|] eqn:Hb.
    + rewrite (filter_run_sound h cfg ctx prior last_message w _ _
                 (run_reapplied _ _ _ _ _ _ b Hrole Hcmd Hb)) in H.
      injection H as <- <-. by apply run_reapplied.
    + rewrite (filter_run_sound h cfg ctx prior last_message w _ w) in H
        by (apply run_untouched; right; by split).
      injection H as <- <-. apply run_untouched. right. by split.
  - unfold compact_command_filter in H. cbn [messages] in H.
    rewrite length_snoc_nonzero, last_of_snoc in H. exc_step.
    rewrite Hrole in H. simpl in H.
    unfold text_of, content_of in Hcmd. rewrite Hcmd in H. discriminate.
Qed.

(** X1.  On a conversation that ends with [last_message] the filter returns
    in exactly five ways -- untouched, no history, failed summary, fresh
    compaction, reapplication -- each with the conversation and state it
    leaves. *)
Theorem filter_returns_exactly_five_ways h cfg ctx prior last_message w c' w' :
  compact_command_filter h cfg (Chat (Some (prior ++ [last_message]))) ctx w
  = Ok (c', w')
  <-> filter_run h cfg ctx prior last_message w c' w'.
Proof. split; [apply filter_run_complete | apply filter_run_sound]. Qed.

(** A conversation without messages is left alone. *)
Lemma filter_no_messages h cfg ctx w c :
  messages c = None \/ messages c = Some [] ->
  compact_command_filter h cfg c ctx w = Ok (c, w).
Proof. unfold compact_command_filter. by intros [-> | ->]. Qed.

(** Every non-empty conversation ends with a last message. *)
Lemma snoc_view (msgs : list message) :
  msgs <> [] -> exists prior last_message, msgs = prior ++ [last_message].
Proof.
  intros H. exists (removelast msgs), (List.last msgs []).
  by apply app_removelast_last.
Qed.

Lemma filter_cases h cfg c ctx w c' w' :
  compact_command_filter h cfg c ctx w = Ok (c', w') ->
  (c' = c /\ w' = w /\ (messages c = None \/ messages c = Some []))
  \/ exists prior last_message,
       messages c = Some (prior ++ [last_message])
       /\ filter_run h cfg ctx prior last_message w c' w'.
Proof.
  intros H. destruct c as [[msgs|]].
  - destruct (decide (msgs = [])) as [->|Hne].
    + rewrite filter_no_messages in H by (by right).
      injection H as <- <-. left. split; [done|]. split; [done|]. by right.
    + destruct (snoc_view msgs Hne) as (prior & last_message & ->).
      right. exists prior, last_message. split; [done|].
      by apply filter_run_complete.
  - rewrite filter_no_messages in H by (by left).
    injection H as <- <-. left. split; [done|]. split; [done|]. by left.
Qed.

Lemma estimate_tokens_nonneg msgs : 0 <= estimate_tokens msgs.
Proof.
  rewrite estimate_tokens_total.
  apply Z.div_pos; [apply lengths_nonneg | lia].
Qed.

(** What a run does to the store: nothing, or one assignment for the
    thread of the request. *)
Lemma filter_run_store h cfg ctx prior last_message w c' w' :
  filter_run h cfg ctx prior last_message w c' w' ->
  compact_boundaries w' = compact_boundaries w
  \/ exists s,
       s <> "" /\ prior <> []
       /\ compact_boundaries w'
          = <[thread_of ctx := {| summary := s;
                                  preTokens := estimate_tokens prior;
                                  messageCount := Z.of_nat (length prior) |}]>
              (compact_boundaries w).
Proof.
  intros Hrun.
  destruct Hrun as [Hpass|Hturn ->|text Hturn Hprior Htext Hnone
                    |text s Hturn Hprior Htext Hsum Hs|b Hrole Hcmd Hb].
  - by left.
  - by left.
  - left. simpl. by rewrite generate_summary_boundaries.
  - right. exists s. split; [done|]. split; [done|].
    simpl. by rewrite generate_summary_boundaries.
  - by left.
Qed.

Lemma filter_store h cfg c ctx w c' w' :
  compact_command_filter h cfg c ctx w = Ok (c', w') ->
  compact_boundaries w' = compact_boundaries w
  \/ exists b, boundary_ok b
       /\ compact_boundaries w' = <[thread_of ctx := b]> (compact_boundaries w).
Proof.
  intros H. destruct (filter_cases _ _ _ _ _ _ _ H)
    as [(_ & -> & _)|(prior & last_message & _ & Hrun)]; [by left|].
  destruct (filter_run_store _ _ _ _ _ _ _ _ Hrun) as [Hsame|(s & Hs & Hprior & Hw)];
    [by left|].
  right. eexists. split; [|exact Hw].
  split; [exact Hs|]. simpl. split; [apply estimate_tokens_nonneg|].
  destruct prior; [done|]. simpl. lia.
Qed.

(** X2.  The store keeps its invariant across every returning run: each
    boundary has a non-empty summary, a token estimate that is not negative
    and a count of at least one compacted message. *)
Theorem filter_keeps_boundaries_well_formed h cfg c ctx w c' w' :
  store_ok w ->
  compact_command_filter h cfg c ctx w = Ok (c', w') ->
  store_ok w'.
Proof.
  intros Hok H thread_id b Hb.
  destruct (filter_store _ _ _ _ _ _ _ H) as [Hsame|(b' & Hb' & Hw)].
  - rewrite Hsame in Hb. by apply (Hok thread_id).
  - rewrite Hw in Hb.
    destruct (decide (thread_of ctx = thread_id)) as [<-|Hne].
    + rewrite lookup_insert_eq in Hb. by injection Hb as <-.
    + rewrite lookup_insert_ne in Hb by exact Hne. by apply (Hok thread_id).
Qed.

Lemma compacted_world_ok : store_ok compacted_world.
Proof.
  intros thread_id b H. unfold compacted_world in H. cbn [compact_boundaries] in H.
  apply lookup_singleton_Some in H as [_ <-].
  repeat split; simpl; (discriminate || lia).
Qed.

Lemma filter_keeps_boundaries_well_formed_witness :
  exists c' w',
    compact_command_filter greeter default_config compact_request t1 compacted_world
    = Ok (c', w')
    /\ store_ok w'.
Proof.
  eexists _, _. split; [reflexivity|].
  eapply (filter_keeps_boundaries_well_formed greeter default_config compact_request
            t1 compacted_world); [exact compacted_world_ok | reflexivity].
Defined.


(** X3.  A run for one thread never touches the boundary of another thread,
    and never removes a boundary, its own included. *)
Theorem filter_leaves_other_threads h cfg c ctx w c' w' :
  compact_command_filter h cfg c ctx w = Ok (c', w') ->
  (forall thread_id,
      thread_id <> thread_of ctx ->
      compact_boundaries w' !! thread_id = compact_boundaries w !! thread_id)
  /\ (forall thread_id,
         is_Some (compact_boundaries w !! thread_id) ->
         is_Some (compact_boundaries w' !! thread_id)).
Proof.
  intros H.
  destruct (filter_store _ _ _ _ _ _ _ H) as [Hsame|(b' & Hb' & Hw)].
  - rewrite Hsame. by split.
  - rewrite Hw. split.
    + intros thread_id Hne. by rewrite lookup_insert_ne.
    + intros thread_id Hsome.
      destruct (decide (thread_of ctx = thread_id)) as [<-|Hne].
      * rewrite lookup_insert_eq. by eexists.
      * by rewrite lookup_insert_ne.
Qed.

Lemma filter_leaves_other_threads_witness :
  exists c' w',
    compact_command_filter greeter default_config compact_request t2 compacted_world
    = Ok (c', w')
    /\ compact_boundaries w' !! "t1" = compact_boundaries compacted_world !! "t1"
    /\ is_Some (compact_boundaries w' !! "t1").
Proof.
  eexists _, _. split; [reflexivity|].
  pose proof (filter_leaves_other_threads greeter default_config compact_request
                t2 compacted_world _ _ eq_refl) as [Hother Hkept].
  split.
  - apply (Hother "t1"). discriminate.
  - apply (Hkept "t1"). by eexists.
Defined.


(** X4.  A returning run keeps the length of the conversation or leaves
    exactly two messages, and the latest turn is always still the last
    message: as it came, or with only its text rewritten; its role is
    unchanged. *)
Theorem filter_keeps_latest_turn h cfg ctx prior last_message w c' w' :
  compact_command_filter h cfg (Chat (Some (prior ++ [last_message]))) ctx w
  = Ok (c', w') ->
  exists msgs' m,
    messages c' = Some msgs'
    /\ (length msgs' = length (prior ++ [last_message]) \/ length msgs' = 2%nat)
    /\ last msgs' = Some m
    /\ (m = last_message \/ exists text, m = update_text last_message text)
    /\ Dict.get "role" m = Dict.get "role" last_message.
Proof.
  intros H. apply filter_run_complete in H.
  destruct H as [Hpass|Hturn ->|text Hturn Hprior Htext Hnone
                 |text s Hturn Hprior Htext Hsum Hs|b Hrole Hcmd Hb].
  - exists (prior ++ [last_message]), last_message.
    split; [done|]. split; [by left|]. split; [apply last_snoc|].
    split; [by left | done].
  - exists [update_text last_message no_history_text],
           (update_text last_message no_history_text).
    split; [done|]. split; [by left|]. split; [done|].
    split; [right; by eexists | apply update_text_role].
  - exists (prior ++ [update_text last_message failure_text]),
           (update_text last_message failure_text).
    split; [done|]. split; [left; by rewrite !length_app|].
    split; [apply last_snoc|].
    split; [right; by eexists | apply update_text_role].
  - exists [system_msg s; update_text last_message continuation_text],
           (update_text last_message continuation_text).
    split; [done|]. split; [by right|]. split; [done|].
    split; [right; by eexists | apply update_text_role].
  - exists [system_msg (summary b); last_message], last_message.
    split; [done|]. split; [by right|]. split; [done|].
    split; [by left | done].
Qed.

Lemma filter_keeps_latest_turn_witness :
  exists c' w' msgs' m,
    compact_command_filter greeter default_config compact_request t1 compacted_world
    = Ok (c', w')
    /\ messages c' = Some msgs'
    /\ (length msgs' = length (greeting ++ [user_msg "/compact"])
        \/ length msgs' = 2%nat)
    /\ last msgs' = Some m
    /\ (m = user_msg "/compact"
        \/ exists text, m = update_text (user_msg "/compact") text)
    /\ Dict.get "role" m = Dict.get "role" (user_msg "/compact").
Proof.
  eexists _, _.
  destruct (filter_keeps_latest_turn greeter default_config t1 greeting
              (user_msg "/compact") compacted_world _ _ eq_refl)
    as (msgs' & m & H).
  exists msgs', m. split; [reflexivity | exact H].
Defined.


(** ** The calls a run makes *)

Lemma generate_summary_calls h text model_name prompt w :
  exists evs,
    events (generate_summary h text model_name prompt w).2 = events w ++ evs
    /\ length (List.filter is_request evs) = 1%nat
    /\ (length (List.filter is_completion evs) <= 1)%nat.
Proof.
  unfold generate_summary.
  destruct (chat_request h _ _ _) as [req|]; simpl.
  - destruct (chat_completion h req) as [response|]; simpl.
    + destruct (read_response response) as [[]|]; simpl;
        repeat rewrite <- app_assoc; eexists; (split; [reflexivity|]);
        simpl; lia.
    + repeat rewrite <- app_assoc; eexists; (split; [reflexivity|]); simpl; lia.
  - repeat rewrite <- app_assoc; eexists; (split; [reflexivity|]); simpl; lia.
Qed.

(** X5.  A returning run only appends to the host's record, and asks for at
    most one summarization request and at most one completion; it asks for
    none unless the turn is a [/compact] command with prior history. *)
Theorem filter_calls_completion_at_most_once h cfg c ctx w c' w' :
  compact_command_filter h cfg c ctx w = Ok (c', w') ->
  exists evs,
    events w' = events w ++ evs
    /\ (length (List.filter is_request evs) <= 1)%nat
    /\ (length (List.filter is_completion evs) <= 1)%nat
    /\ (existsb is_call evs = true ->
        exists prior last_message,
          messages c = Some (prior ++ [last_message])
          /\ prior <> [] /\ is_compact_turn last_message = true).
Proof.
  intros H.
  destruct (filter_cases _ _ _ _ _ _ _ H)
    as [(_ & -> & _)|(prior & last_message & Hc & Hrun)].
  { exists []. rewrite app_nil_r. repeat split; simpl; try lia; try discriminate. }
  destruct Hrun as [Hpass|Hturn ->|text Hturn Hprior Htext Hnone
                    |text s Hturn Hprior Htext Hsum Hs|b Hrole Hcmd Hb].
  - exists []. rewrite app_nil_r. repeat split; simpl; try lia; try discriminate.
  - eexists [_]. repeat split; simpl; try lia; try discriminate.
  - destruct (generate_summary_calls h text (full_model cfg) (summary_prompt cfg)
                (called (thread_of ctx) (length prior) w)) as (evs & Hev & Hreq & Hcompl).
    exists ([LogCompactCommand (thread_of ctx);
             LogCompacting (Z.of_nat (length prior))] ++ evs ++ [LogFailed]).
    split; [simpl; rewrite Hev; simpl; by repeat rewrite <- app_assoc|].
    simpl. rewrite !List.filter_app, !length_app. simpl.
    split; [lia|]. split; [lia|]. intros _. by exists prior, last_message.
  - destruct (generate_summary_calls h text (full_model cfg) (summary_prompt cfg)
                (called (thread_of ctx) (length prior) w)) as (evs & Hev & Hreq & Hcompl).
    exists ([LogCompactCommand (thread_of ctx);
             LogCompacting (Z.of_nat (length prior))] ++ evs
            ++ [LogSummary (Str.len s);
                LogReduction (estimate_tokens prior)
                  (estimate_tokens
                     [system_msg s; update_text last_message continuation_text])]).
    split; [simpl; rewrite Hev; simpl; by repeat rewrite <- app_assoc|].
    simpl. rewrite !List.filter_app, !length_app. simpl.
    split; [lia|]. split; [lia|]. intros _. by exists prior, last_message.
  - eexists [_]. repeat split; simpl; try lia; try discriminate.
Qed.

Lemma filter_calls_completion_at_most_once_witness :
  exists c' w' evs,
    compact_command_filter greeter default_config compact_request t1 compacted_world
    = Ok (c', w')
    /\ events w' = events compacted_world ++ evs
    /\ (length (List.filter is_request evs) <= 1)%nat
    /\ (length (List.filter is_completion evs) <= 1)%nat.
Proof.
  eexists _, _.
  destruct (filter_calls_completion_at_most_once greeter default_config
              compact_request t1 compacted_world _ _ eq_refl)
    as (evs & Hev & Hreq & Hcompl & _).
  exists evs. split; [reflexivity|]. by repeat split.
Defined.


(** ** The transcript *)

Lemma append_assoc (a b c : string) : (a +:+ b) +:+ c = a +:+ (b +:+ c).
Proof.
  induction a as [|x a IH]; [reflexivity|].
  change (String x ((a +:+ b) +:+ c) = String x (a +:+ (b +:+ c))).
  by rewrite IH.
Qed.

Lemma append_nil_r (a : string) : a +:+ "" = a.
Proof.
  induction a as [|x a IH]; [reflexivity|].
  change (String x (a +:+ "") = String x a). by rewrite IH.
Qed.

Lemma as_strings_parts l :
  forallb (fun p => Py.is_str (part_text p)) l = true ->
  exists strs, as_strings (map part_text l) = Ok strs.
Proof.
  induction l as [|p l IH]; simpl; intros H; [by eexists|].
  apply andb_true_iff in H as [Hp Hl].
  destruct (IH Hl) as (strs & Hstrs).
  destruct (part_text p); try discriminate.
  rewrite Hstrs. exc_step. by eexists.
Qed.

Lemma as_strings_parts_fail l :
  forallb (fun p => Py.is_str (part_text p)) l = false ->
  as_strings (map part_text l) = Raise TypeError.
Proof.
  induction l as [|p l IH]; simpl; intros H; [discriminate|].
  apply andb_false_iff in H.
  destruct (part_text p); try reflexivity.
  destruct H as [H|H]; [discriminate|]. rewrite (IH H). reflexivity.
Qed.

Lemma build_line_parts msg :
  build_line msg
  = (content_text ←
       match content_of msg with
       | PList l => strs ← as_strings (map part_text l); Ok (Str.join " " strs)
       | _ => Ok (Py.str (content_of msg))
       end;
     Ok (Py.str (Dict.get_or "role" (PStr "unknown") msg)
         +:+ ": " +:+ content_text +:+ nl +:+ nl)).
Proof. reflexivity. Qed.

Lemma build_line_renderable msg :
  renderable msg = true -> exists line, build_line msg = Ok line.
Proof.
  rewrite build_line_parts. unfold renderable.
  destruct (content_of msg) as [| | | |l|]; intros H; try (by eexists).
  destruct (as_strings_parts l H) as (strs & ->). by eexists.
Qed.

Lemma build_line_unrenderable msg :
  renderable msg = false -> build_line msg = Raise TypeError.
Proof.
  rewrite build_line_parts. unfold renderable.
  destruct (content_of msg) as [| | | |l|]; intros H; try discriminate.
  by rewrite (as_strings_parts_fail l H).
Qed.

Lemma build_text_from_acc acc msgs :
  build_text_from acc msgs
  = (text ← build_text_from "" msgs; Ok (acc +:+ text)).
Proof.
  revert acc. induction msgs as [|msg msgs IH]; intros acc; simpl.
  - exc_step. by rewrite append_nil_r.
  - destruct (build_line msg) as [line|e]; [|reflexivity]. exc_step.
    change ("" +:+ line) with line.
    rewrite (IH (acc +:+ line)), (IH line).
    destruct (build_text_from "" msgs) as [text|e]; [|reflexivity].
    exc_step. by rewrite append_assoc.
Qed.

Lemma build_text_cons msg msgs :
  build_text (msg :: msgs)
  = (line ← build_line msg; text ← build_text msgs; Ok (line +:+ text)).
Proof.
  unfold build_text. simpl.
  destruct (build_line msg) as [line|e]; [|reflexivity]. exc_step.
  apply build_text_from_acc.
Qed.

Lemma build_text_renderable msgs :
  forallb renderable msgs = true -> exists text, build_text msgs = Ok text.
Proof.
  induction msgs as [|msg msgs IH]; simpl; intros H; [by eexists|].
  apply andb_true_iff in H as [Hm Hms].
  rewrite build_text_cons.
  destruct (build_line_renderable msg Hm) as (line & ->).
  destruct (IH Hms) as (text & ->). by eexists.
Qed.

Lemma build_text_unrenderable msgs :
  forallb renderable msgs = false -> build_text msgs = Raise TypeError.
Proof.
  induction msgs as [|msg msgs IH]; simpl; intros H; [discriminate|].
  rewrite build_text_cons.
  destruct (renderable msg) eqn:Hm.
  - destruct (build_line_renderable msg Hm) as (line & ->).
    simpl in H. by rewrite (IH H).
  - by rewrite (build_line_unrenderable msg Hm).
Qed.

(** X6.  [build_text] returns exactly when, in every sequence content, each
    part's text -- the text field of a mapping, the string form of anything
    else -- is a text; otherwise it raises a [TypeError], at the join. *)
Theorem build_text_returns_iff_renderable msgs :
  (forallb renderable msgs = true <-> exists text, build_text msgs = Ok text)
  /\ (forallb renderable msgs = false <-> build_text msgs = Raise TypeError).
Proof.
  split; split.
  - apply build_text_renderable.
  - intros (text & Htext). destruct (forallb renderable msgs) eqn:H; [done|].
    rewrite (build_text_unrenderable msgs H) in Htext. discriminate.
  - apply build_text_unrenderable.
  - intros Hraise. destruct (forallb renderable msgs) eqn:H; [|done].
    destruct (build_text_renderable msgs H) as (text & Htext). congruence.
Qed.

(** X7.  The transcript of two histories one after the other is the
    transcript of the first followed by that of the second (and raises when
    either does); a message with a text role and a text content contributes
    the block [role: content] and two newlines. *)
Theorem build_text_concatenates :
  (forall msgs1 msgs2,
      build_text (msgs1 ++ msgs2)
      = (text1 ← build_text msgs1; text2 ← build_text msgs2; Ok (text1 +:+ text2)))
  /\ (forall msg role content,
         Dict.get "role" msg = Some (PStr role) ->
         Dict.get "content" msg = Some (PStr content) ->
         build_text [msg] = Ok (role +:+ ": " +:+ content +:+ nl +:+ nl)).
Proof.
  split.
  - intros msgs1 msgs2. induction msgs1 as [|msg msgs1 IH]; simpl.
    + change (build_text []) with (Ok (A:=string) ""). exc_step.
      by destruct (build_text msgs2).
    + rewrite !build_text_cons, IH.
      destruct (build_line msg) as [line|e]; [|reflexivity].
      destruct (build_text msgs1) as [text1|e]; [|reflexivity].
      destruct (build_text msgs2) as [text2|e]; [|reflexivity].
      exc_step. by rewrite append_assoc.
  - intros msg role content Hrole Hcontent.
    unfold build_text. simpl. rewrite build_line_parts.
    unfold content_of, Dict.get_or. rewrite Hrole, Hcontent. reflexivity.
Qed.

Lemma build_text_concatenates_witness :
  build_text [user_msg "hi"]
  = Ok ("user" +:+ ": " +:+ "hi" +:+ nl +:+ nl)
  /\ build_text ([user_msg "hi"] ++ [assistant_msg "hello"])
     = (text1 ← build_text [user_msg "hi"];
        text2 ← build_text [assistant_msg "hello"];
        Ok (text1 +:+ text2)).
Proof.
  pose proof build_text_concatenates as (Happ & Hline).
  split.
  - apply (Hline (user_msg "hi") "user" "hi"); reflexivity.
  - apply (Happ [user_msg "hi"] [assistant_msg "hello"]).
Defined.

(** ** When the filter raises *)

Lemma is_compact_command_raises v e :
  is_compact_command v = Raise e
  <-> Py.truthy v = true /\ Py.is_str v = false /\ e = AttributeError.
Proof.
  unfold is_compact_command. split.
  - destruct (Py.truthy v) eqn:Htruthy; [|discriminate].
    destruct v; exc_step; try discriminate; intros H; by injection H as <-.
  - intros (-> & Hstr & ->). by destruct v.
Qed.

Lemma filter_strip_raises h cfg ctx prior last_message w e :
  role_is_user last_message = true ->
  is_compact_command (text_of last_message) = Raise e ->
  compact_command_filter h cfg (Chat (Some (prior ++ [last_message]))) ctx w
  = Raise e.
Proof.
  intros Hrole Hcmd. unfold compact_command_filter. cbn [messages].
  rewrite length_snoc_nonzero, last_of_snoc. exc_step.
  rewrite Hrole. simpl. unfold text_of, content_of in Hcmd. by rewrite Hcmd.
Qed.

Lemma filter_transcript_raises h cfg ctx prior last_message w e :
  is_compact_turn last_message = true ->
  prior <> [] ->
  build_text prior = Raise e ->
  compact_command_filter h cfg (Chat (Some (prior ++ [last_message]))) ctx w
  = Raise e.
Proof.
  intros Hturn Hprior Htext. rewrite filter_command by exact Hturn.
  unfold handle_compact. simpl chat_messages. exc_step.
  by rewrite last_of_snoc, but_last_snoc, (length_nonzero _ Hprior), Htext.
Qed.

(** X8.  The filter raises in two situations only.  The text read from the
    last user message is a truthy value that is not a text: the [.strip()]
    of line 49 raises [AttributeError].  Or the turn is a [/compact] command
    whose prior history cannot be rendered: the join in [build_text] raises
    [TypeError].  In both the run ends before any call to the host's
    completion. *)
Theorem filter_raises_in_two_situations h cfg ctx prior last_message w e :
  compact_command_filter h cfg (Chat (Some (prior ++ [last_message]))) ctx w
  = Raise e
  <-> (role_is_user last_message = true
       /\ Py.truthy (text_of last_message) = true
       /\ Py.is_str (text_of last_message) = false
       /\ e = AttributeError)
      \/ (is_compact_turn last_message = true
          /\ prior <> []
          /\ forallb renderable prior = false
          /\ e = TypeError).
Proof.
  split.
  - intros H.
    destruct (role_is_user last_message) eqn:Hrole.
    2:{ rewrite (filter_run_sound h cfg ctx prior last_message w _ w) in H
          by (apply run_untouched; by left). discriminate. }
    destruct (is_compact_command (text_of last_message)) as [[|]|e'] eqn:Hcmd.
    + pose proof (command_compact_turn _ Hrole Hcmd) as Hturn.
      destruct (decide (prior = [])) as [->|Hprior].
      { rewrite (filter_run_sound h cfg ctx [] last_message w _ _
                   (run_no_history _ _ _ _ _ _ Hturn eq_refl)) in H. discriminate. }
      destruct (forallb renderable prior) eqn:Hrender.
      * destruct (build_text_renderable prior Hrender) as (text & Htext).
        destruct (no_summary (summary_of h text (full_model cfg) (summary_prompt cfg)))
          eqn:Hnone.
        -- rewrite (filter_run_sound h cfg ctx prior last_message w _ _
                      (run_failed _ _ _ _ _ _ text Hturn Hprior Htext Hnone)) in H.
           discriminate.
        -- destruct (no_summary_false _ Hnone) as (s & Hsum & Hs).
           rewrite (filter_run_sound h cfg ctx prior last_message w _ _
                      (run_fresh _ _ _ _ _ _ text s Hturn Hprior Htext Hsum Hs)) in H.
           discriminate.
      * rewrite (filter_transcript_raises h cfg ctx prior last_message w TypeError
                   Hturn Hprior (build_text_unrenderable prior Hrender)) in H.
        injection H as <-. right. by repeat split.
    + destruct (compact_boundaries w !! thread_of ctx) as [b|] eqn:Hb.
      * rewrite (filter_run_sound h cfg ctx prior last_message w _ _
                   (run_reapplied _ _ _ _ _ _ b Hrole Hcmd Hb)) in H. discriminate.
      * rewrite (filter_run_sound h cfg ctx prior last_message w _ w) in H
          by (apply run_untouched; right; by split). discriminate.
    + rewrite (filter_strip_raises h cfg ctx prior last_message w e' Hrole Hcmd) in H.
      injection H as <-. apply is_compact_command_raises in Hcmd as (? & ? & ->).
      left. by repeat split.
  - intros [(Hrole & Htruthy & Hstr & ->)|(Hturn & Hprior & Hrender & ->)].
    + apply filter_strip_raises; [exact Hrole|].
      apply is_compact_command_raises. by repeat split.
    + apply filter_transcript_raises; [exact Hturn|exact Hprior|].
      by apply build_text_unrenderable.
Qed.

(** ** Turns that follow one another *)

(** X9.  Reapplication is idempotent: run again on the two messages it
    produced, the filter returns the same two messages, and the store is as
    it was. *)
Theorem reapplication_is_idempotent h cfg ctx prior last_message w b :
  role_is_user last_message = true ->
  is_compact_command (text_of last_message) = Ok false ->
  compact_boundaries w !! thread_of ctx = Some b ->
  exists c1 w1 w2,
    compact_command_filter h cfg (Chat (Some (prior ++ [last_message]))) ctx w
    = Ok (c1, w1)
    /\ c1 = Chat (Some [system_msg (summary b); last_message])
    /\ compact_command_filter h cfg c1 ctx w1 = Ok (c1, w2)
    /\ compact_boundaries w2 = compact_boundaries w.
Proof.
  intros Hrole Hcmd Hb.
  eexists _, _, _. split; [by apply filter_reapply|]. split; [reflexivity|].
  split.
  - by apply (filter_reapply h cfg ctx [system_msg (summary b)] last_message).
  - reflexivity.
Qed.

Lemma reapplication_is_idempotent_witness :
  exists c1 w1 w2,
    compact_command_filter raising_host default_config
      (Chat (Some (greeting ++ [user_msg "what's next?"]))) t1 compacted_world
    = Ok (c1, w1)
    /\ c1 = Chat (Some [system_msg "Earlier talk."; user_msg "what's next?"])
    /\ compact_command_filter raising_host default_config c1 t1 w1 = Ok (c1, w2)
    /\ compact_boundaries w2 = compact_boundaries compacted_world.
Proof.
  apply (reapplication_is_idempotent raising_host default_config t1 greeting
           (user_msg "what's next?") compacted_world
           {| summary := "Earlier talk."; preTokens := 9; messageCount := 4 |});
    reflexivity.
Defined.

(** X10.  A successful [/compact] stores, for the thread of the request, the
    summary with the estimate and the count of the compacted history,
    replacing whatever boundary the thread had; the next user turn of that
    thread that is not a command is answered from the new summary, whatever
    history it brings. *)
Theorem compaction_supersedes_boundary
    h cfg ctx prior last_message w text s later next_message :
  is_compact_turn last_message = true ->
  prior <> [] ->
  build_text prior = Ok text ->
  summary_of h text (full_model cfg) (summary_prompt cfg) = Some s ->
  s <> "" ->
  role_is_user next_message = true ->
  is_compact_command (text_of next_message) = Ok false ->
  exists c1 w1 w2,
    compact_command_filter h cfg (Chat (Some (prior ++ [last_message]))) ctx w
    = Ok (c1, w1)
    /\ compact_boundaries w1 !! thread_of ctx
       = Some {| summary := s;
                 preTokens := estimate_tokens prior;
                 messageCount := Z.of_nat (length prior) |}
    /\ compact_command_filter h cfg (Chat (Some (later ++ [next_message]))) ctx w1
       = Ok (Chat (Some [system_msg s; next_message]), w2)
    /\ compact_boundaries w2 = compact_boundaries w1.
Proof.
  intros Hturn Hprior Htext Hsum Hs Hrole Hcmd.
  pose proof (filter_run_sound h cfg ctx prior last_message w _ _
                (run_fresh _ _ _ _ _ _ text s Hturn Hprior Htext Hsum Hs)) as Hfirst.
  eexists _, _, _. split; [exact Hfirst|].
  assert (Hstored :
    compact_boundaries
      (compacted h (thread_of ctx) (full_model cfg) (summary_prompt cfg) text s
         prior last_message w) !! thread_of ctx
    = Some {| summary := s; preTokens := estimate_tokens prior;
              messageCount := Z.of_nat (length prior) |})
    by (simpl; by rewrite lookup_insert_eq).
  split; [exact Hstored|].
  split.
  - by apply (filter_reapply h cfg ctx later next_message _ _ Hrole Hcmd Hstored).
  - reflexivity.
Qed.

Lemma compaction_supersedes_boundary_witness :
  exists c1 w1 w2,
    compact_command_filter (answering_host (PStr " Greetings. ")) default_config
      (Chat (Some (greeting ++ [user_msg "/compact"]))) t1 compacted_world
    = Ok (c1, w1)
    /\ compact_boundaries w1 !! "t1"
       = Some {| summary := "Greetings.";
                 preTokens := estimate_tokens greeting;
                 messageCount := 2 |}
    /\ compact_command_filter (answering_host (PStr " Greetings. ")) default_config
         (Chat (Some ([assistant_msg "noted"] ++ [user_msg "what's next?"])))
         t1 w1
       = Ok (Chat (Some [system_msg "Greetings."; user_msg "what's next?"]), w2)
    /\ compact_boundaries w2 = compact_boundaries w1.
Proof.
  apply (compaction_supersedes_boundary (answering_host (PStr " Greetings. "))
           default_config t1 greeting (user_msg "/compact") compacted_world
           ("user: hi" +:+ nl +:+ nl +:+ "assistant: hello" +:+ nl +:+ nl)
           "Greetings." [assistant_msg "noted"] (user_msg "what's next?"));
    (reflexivity || discriminate).
Defined.

(** ** The summary a response yields *)

(** X11.  [generate_summary] yields a text exactly when the request is
    built, the completion returns, and the response holds a text under
    [choices[0].message.content]; the text it yields is that content,
    stripped.  In every other case it yields [None]. *)
Theorem summary_is_stripped_content h text model_name prompt t :
  summary_of h text model_name prompt = Some t
  <-> exists req response s,
        chat_request h model_name prompt text = Ok req
        /\ chat_completion h req = Ok response
        /\ response_content response = Some (PStr s)
        /\ t = Str.strip s.
Proof.
  split.
  - unfold summary_of, generate_summary. intros H.
    destruct (chat_request h model_name prompt text) as [req|] eqn:Hreq;
      [|discriminate].
    destruct (chat_completion h req) as [response|] eqn:Hresp; [|discriminate].
    destruct (read_response response) as [[t'|]|] eqn:Hread; try discriminate.
    injection H as <-.
    destruct (read_response_Some _ _ Hread) as (s & Hs & ->).
    by exists req, response, s.
  - intros (req & response & s & Hreq & Hresp & Hs & ->).
    by apply (summary_of_content h text model_name prompt req response s).
Qed.

(** ** Rewriting the text twice *)

Lemma dict_set_set k v v' d : Dict.set k v (Dict.set k v' d) = Dict.set k v d.
Proof.
  induction d as [|[k0 v0] d IH]; simpl.
  - by rewrite String.eqb_refl.
  - destruct (String.eqb k0 k) eqn:E; simpl; rewrite E; [done | by rewrite IH].
Qed.

(** X12.  [update_text] and [extract_text] round-trip: the text read back
    from a rewritten message is the text written, whatever the content was;
    and a second rewrite overwrites the first, leaving the message that the
    second alone would leave. *)
Theorem update_text_overwrites msg text1 text2 :
  extract_text (Dict.get_or "content" (PStr "") (update_text msg text1)) = PStr text1
  /\ update_text (update_text msg text1) text2 = update_text msg text2.
Proof.
  split; [apply update_text_text|].
  unfold update_text at 2 3.
  destruct (Dict.get_or "content" (PStr "") msg) as [| | | |[|[| | | | |d] rest]|];
    unfold update_text; rewrite DictFacts.get_or_set_eq;
    try apply dict_set_set.
  by rewrite !dict_set_set.
Qed.

(** ** The estimate of a concatenation *)

Lemma lengths_app (msgs1 msgs2 : list message) :
  foldr Z.add 0
    (map (fun m => Str.len (serialized (content_of m))) (msgs1 ++ msgs2))
  = foldr Z.add 0 (map (fun m => Str.len (serialized (content_of m))) msgs1)
    + foldr Z.add 0 (map (fun m => Str.len (serialized (content_of m))) msgs2).
Proof. induction msgs1 as [|m msgs1 IH]; simpl; [lia | rewrite IH; lia]. Qed.

(** X13.  Estimating two histories together gives the sum of their
    estimates or one more, never less and never more than that; the
    estimate does not depend on the order of the two; and it is zero only
    when fewer than four characters are counted. *)
Theorem estimate_tokens_of_concatenation msgs1 msgs2 :
  estimate_tokens msgs1 + estimate_tokens msgs2 <= estimate_tokens (msgs1 ++ msgs2)
  /\ estimate_tokens (msgs1 ++ msgs2)
     <= estimate_tokens msgs1 + estimate_tokens msgs2 + 1
  /\ estimate_tokens (msgs1 ++ msgs2) = estimate_tokens (msgs2 ++ msgs1)
  /\ (estimate_tokens msgs1 = 0
      <-> foldr Z.add 0
            (map (fun m => Str.len (serialized (content_of m))) msgs1) < 4).
Proof.
  rewrite !estimate_tokens_total, !lengths_app.
  pose proof (lengths_nonneg msgs1) as H1.
  pose proof (lengths_nonneg msgs2) as H2.
  generalize dependent (foldr Z.add 0
    (map (fun m => Str.len (serialized (content_of m))) msgs1)).
  generalize dependent (foldr Z.add 0
    (map (fun m => Str.len (serialized (content_of m))) msgs2)).
  intros y Hy x Hx.
  repeat split; Z.div_mod_to_equations; lia.
Qed.

(** ** What counts as the command *)

Lemma lstrip_spaces ws s :
  all_space ws = true -> Str.lstrip (ws +:+ s) = Str.lstrip s.
Proof.
  induction ws as [|c ws IH]; [reflexivity|].
  simpl. intros H. apply andb_true_iff in H as [Hc Hws].
  change (String c ws +:+ s) with (String c (ws +:+ s)).
  simpl. rewrite Hc. by apply IH.
Qed.

Lemma rstrip_cons c s :
  Str.isspace c = false -> Str.rstrip (String c s) = String c (Str.rstrip s).
Proof. intros H. simpl. rewrite H. by destruct (Str.rstrip s). Qed.

(** X14.  Whitespace before [/compact] and whatever follows it do not
    matter: a user turn whose text is whitespace, then [/compact], then any
    text at all, is a command. *)
Theorem command_ignores_surrounding_text msg ws rest :
  role_is_user msg = true ->
  text_of msg = PStr (ws +:+ "/compact" +:+ rest) ->
  all_space ws = true ->
  is_compact_turn msg = true.
Proof.
  intros Hrole Htext Hws. unfold is_compact_turn.
  rewrite Hrole, Htext. simpl. unfold Str.strip.
  rewrite (lstrip_spaces ws _ Hws).
  change ("/compact" +:+ rest)
    with (String "/" (String "c" (String "o" (String "m" (String "p"
            (String "a" (String "c" (String "t" rest)))))))).
  cbn [Str.lstrip]. change (Str.isspace "/") with false. cbv iota.
  rewrite !rstrip_cons by reflexivity.
  unfold Str.startswith. by destruct (Str.rstrip rest).
Qed.

Lemma command_ignores_surrounding_text_witness :
  is_compact_turn (user_msg "  /compact the rest, please ") = true.
Proof.
  apply (command_ignores_surrounding_text
           (user_msg "  /compact the rest, please ") "  " " the rest, please ");
    reflexivity.
Defined.

(** ** The configuration *)

(** X15.  Settings are read key by key: when each of the three keys of
    [config.json] is absent or a text, the values [__install__] uses are
    those of the file with the defaults [ollama], [qwen2.5:7b] and the
    default prompt for the absent ones, and the model name it passes on is
    [provider/model], or [model] alone when the provider is the empty text.
    A file that does not hold an object makes [__install__] raise. *)
Theorem settings_read_with_defaults :
  (forall config_dict,
      text_or_absent "provider" config_dict = true ->
      text_or_absent "model" config_dict = true ->
      text_or_absent "summary_prompt" config_dict = true ->
      read_settings (Some (PDict config_dict)) = Ok (settings_of (config_of config_dict))
      /\ full_model_value (settings_of (config_of config_dict))
         = PStr (full_model (config_of config_dict)))
  /\ read_settings None = Ok (settings_of default_config)
  /\ (forall cfg, provider cfg = "" -> full_model cfg = model cfg)
  /\ (forall cfg, provider cfg <> "" ->
        full_model cfg = provider cfg +:+ "/" +:+ model cfg)
  /\ (forall v, Py.is_dict v = false -> read_settings (Some v) = Raise AttributeError).
Proof.
  split; [|split; [|split; [|split]]].
  - intros d Hp Hm Hs. split.
    + unfold read_settings, settings_of, config_of, text_setting, text_or_absent,
        Dict.get_or in *. simpl.
      destruct (Dict.get "provider" d) as [[]|]; try discriminate;
        destruct (Dict.get "model" d) as [[]|]; try discriminate;
        destruct (Dict.get "summary_prompt" d) as [[]|]; try discriminate;
        reflexivity.
    + generalize (config_of d). intros cfg.
      unfold full_model_value, full_model, settings_of.
      cbn [provider_value model_value].
      by destruct (Py.truthy (PStr (provider cfg))).
  - reflexivity.
  - intros cfg H. unfold full_model. by rewrite H.
  - intros cfg H. unfold full_model. simpl.
    destruct (String.eqb (provider cfg) "") eqn:E; [|reflexivity].
    apply String.eqb_eq in E. contradiction.
  - intros v H. by destruct v.
Qed.

Lemma settings_read_with_defaults_witness :
  read_settings (Some (PDict [("model", PStr "llama3"); ("provider", PStr "")]))
  = Ok (settings_of
          {| provider := ""; model := "llama3";
             summary_prompt := "Summarize this conversation concisely." |})
  /\ full_model {| provider := ""; model := "llama3";
                   summary_prompt := "Summarize this conversation concisely." |}
     = "llama3"
  /\ full_model default_config = "ollama" +:+ "/" +:+ "qwen2.5:7b"
  /\ read_settings (Some (PList [])) = Raise AttributeError.
Proof.
  pose proof settings_read_with_defaults as (Hread & _ & Hempty & Hfull & Hraise).
  split; [|split; [|split]].
  - apply (Hread [("model", PStr "llama3"); ("provider", PStr "")]); reflexivity.
  - apply (Hempty {| provider := ""; model := "llama3";
                     summary_prompt := "Summarize this conversation concisely." |}).
    reflexivity.
  - apply (Hfull default_config). discriminate.
  - apply (Hraise (PList [])). reflexivity.
Defined.
